(** * The pipeline state manager: a shallow embedding of
      [src/pipeline/state_manager.py] and the properties of its
      checkpoint store.

    The Python class [StateManager] keeps, per session,
    - a registry of branches ([self.branches], a dict from branch name to
      [Branch]),
    - an in-memory cache of data frames ([self._memory_cache]) with its
      recency list ([self._access_order]),
    - a directory of spilled Parquet files ([self.temp_dir]).

    Modelling choices.
    - Python dicts are finite maps ([gmap string _]); no property below
      depends on dict iteration order.
    - The directory [temp_dir] is a flat finite map from file name to file
      contents, or [None] when the directory does not exist (this is the
      case after [shutil.rmtree]).  Branch names and state ids are taken
      not to contain path separators or glob metacharacters.
    - pandas and pyarrow are external: the data frame type, its Parquet
      codec, its hash and its shape are parameters of the model.  The codec
      is partial in both directions.
    - A Python exception is a value of type [exn]; a method is a function
      from the object's state to an outcome and the state it leaves behind,
      because a raising method keeps the mutations it made before
      raising.
    - The file operations that Python could see fail for reasons outside
      the store (permissions, a full disk) succeed: [mkdir], [unlink],
      [rmtree], and writing a file into an existing directory.  Writing
      into a directory that does not exist raises.
    - [pd.Timestamp.now().isoformat()] is an extra argument [now] of each
      method reading the clock.  The line [cleanup] prints is left out.
    - [df.copy()] is the identity on values. *)

From Stdlib Require Import ZArith String Ascii List Bool Lia.
From stdpp Require Import gmap strings list fin_maps pretty.

Local Open Scope string_scope.

(** ** Exceptions and outcomes *)

Inductive exn : Type :=
  | StateNotFoundError (msg : string)
  | ValueError (msg : string)
  | IndexError
  | KeyError (key : string)
  | FileNotFoundError (path : string)
  | ParquetError.

Inductive outcome (A : Type) : Type :=
  | Return (a : A)
  | Raise (e : exn).

Arguments Return {A} a.
Arguments Raise {A} e.

(** ** String helpers used by the key and file naming *)

(** [s.replace('::', '__')]: non-overlapping occurrences, left to right. *)
Fixpoint replace_sep (s : string) : string :=
  match s with
  | EmptyString => EmptyString
  | String c rest =>
      match rest with
      | EmptyString => String c EmptyString
      | String c' rest' =>
          if (Ascii.eqb c ":" && Ascii.eqb c' ":")%bool
          then String "_" (String "_" (replace_sep rest'))
          else String c (replace_sep rest)
      end
  end.

(** [f"{branch}::{state_id}"] *)
Definition state_key (branch state_id : string) : string :=
  branch +:+ "::" +:+ state_id.

(** The file name below [temp_dir]:
    [f"{state_key.replace('::', '__')}.parquet"] *)
Definition disk_path (key : string) : string :=
  replace_sep key +:+ ".parquet".

(** [k.startswith(p)] *)
Definition startswith (k p : string) : bool := String.prefix p k.

(** [k.endswith(p)] *)
Definition endswith (k p : string) : bool :=
  (String.length p <=? String.length k)%nat
  && String.eqb (String.substring (String.length k - String.length p)
                                  (String.length p) k) p.

(** The rest of [k] after the prefix [p], if [k] starts with [p]. *)
Fixpoint strip_prefix (p k : string) : option string :=
  match p with
  | EmptyString => Some k
  | String a p' =>
      match k with
      | EmptyString => None
      | String b k' => if Ascii.eqb a b then strip_prefix p' k' else None
      end
  end.

(** Does file [name] match the pattern [f"{branch_name}__*.parquet"]?  The
    star matches any run of characters, the empty one too. *)
Definition glob_match (branch_name name : string) : bool :=
  match strip_prefix (branch_name +:+ "__") name with
  | Some rest => endswith rest ".parquet"
  | None => false
  end.

(** [l.remove(k)] guarded by [if k in l]: drops the first occurrence. *)
Fixpoint remove_first (k : string) (l : list string) : list string :=
  match l with
  | [] => []
  | x :: r => if String.eqb x k then r else x :: remove_first k r
  end.

(** No [":"] in the string. *)
Fixpoint colon_free (s : string) : bool :=
  match s with
  | EmptyString => true
  | String c rest => negb (Ascii.eqb c ":") && colon_free rest
  end.

Section StateManagerModel.

(** ** Parameters: pandas and the Parquet codec *)

Variables DataFrame Config Parquet : Type.

(** [df.to_parquet(path)] and [pd.read_parquet(path)], as functions on file
    contents; [None] is a raised codec error. *)
Variable to_parquet : DataFrame -> option Parquet.
Variable read_parquet : Parquet -> option DataFrame.

(** [self._compute_hash(df)], [len(df)], [len(df.columns)] *)
Variable _compute_hash : DataFrame -> string.
Variable len_rows : DataFrame -> nat.
Variable len_columns : DataFrame -> nat.

(** The empty dict [{}] *)
Variable empty_config : Config.

(** ** Data model *)

Record StateRecord : Type := mkStateRecord {
  id : string;
  parent : option string;
  timestamp : string;
  data_hash : string;
  row_count : nat;
  col_count : nat;
  config_snapshot : Config;
  delta_summary : string
}.

(** [forked_from] is the dict [{"branch": b, "state_id": i}], here a pair. *)
Record Branch : Type := mkBranch {
  created_at : string;
  forked_from : option (string * string);
  states : list StateRecord
}.

Record StateManager : Type := mkStateManager {
  cache_size : Z;
  temp_dir : option (gmap string Parquet);
  branches : gmap string Branch;
  active_branch : string;
  _memory_cache : gmap string DataFrame;
  _access_order : list string
}.

Definition set_temp_dir (d : option (gmap string Parquet)) (s : StateManager) :=
  mkStateManager (cache_size s) d (branches s) (active_branch s)
                 (_memory_cache s) (_access_order s).
Definition set_branches (b : gmap string Branch) (s : StateManager) :=
  mkStateManager (cache_size s) (temp_dir s) b (active_branch s)
                 (_memory_cache s) (_access_order s).
Definition set_active_branch (a : string) (s : StateManager) :=
  mkStateManager (cache_size s) (temp_dir s) (branches s) a
                 (_memory_cache s) (_access_order s).
Definition set_memory_cache (c : gmap string DataFrame) (s : StateManager) :=
  mkStateManager (cache_size s) (temp_dir s) (branches s) (active_branch s)
                 c (_access_order s).
Definition set_access_order (o : list string) (s : StateManager) :=
  mkStateManager (cache_size s) (temp_dir s) (branches s) (active_branch s)
                 (_memory_cache s) o.

(** ** Methods as state transformers *)

Definition M (A : Type) : Type := StateManager -> outcome A * StateManager.

Definition ret {A} (a : A) : M A := fun s => (Return a, s).
Definition raise {A} (e : exn) : M A := fun s => (Raise e, s).
Definition bind {A B} (m : M A) (k : A -> M B) : M B :=
  fun s => match m s with
           | (Return a, s') => k a s'
           | (Raise e, s') => (Raise e, s')
           end.
Definition get : M StateManager := fun s => (Return s, s).
Definition modify (f : StateManager -> StateManager) : M unit :=
  fun s => (Return tt, f s).

Notation "x <- m ;; k" := (bind m (fun x => k))
  (at level 100, m at next level, right associativity).
Notation "m ;;; k" := (bind m (fun _ => k))
  (at level 100, right associativity).

(** [__init__]: [pre] is what the directory held before construction
    ([mkdir(exist_ok=True)] keeps an existing directory as it is). *)
Definition init (size : Z) (pre : option (gmap string Parquet)) (now : string)
  : StateManager :=
  {| cache_size := size;
     temp_dir := Some (default ∅ pre);
     branches := {[ "main" := mkBranch now None [] ]};
     active_branch := "main";
     _memory_cache := ∅;
     _access_order := [] |}.

(** [_touch] *)
Definition _touch (key : string) : M unit :=
  modify (fun s =>
    set_access_order (remove_first key (_access_order s) ++ [key]) s).

(** The [while] loop of [_add_to_cache].  Every round pops the head of
    [_access_order], so the loop is a recursion on that list; [order] is
    always the current [_access_order]. *)
Fixpoint evict_loop (order : list string) (s : StateManager)
  : outcome unit * StateManager :=
  if (cache_size s <=? Z.of_nat (size (_memory_cache s)))%Z then
    match order with
    | [] => (Raise IndexError, s)
    | evict_key :: rest =>
        let s1 := set_access_order rest s in
        match _memory_cache s1 !! evict_key with
        | None => (Raise (KeyError evict_key), s1)
        | Some evicted_df =>
            let s2 := set_memory_cache (delete evict_key (_memory_cache s1)) s1 in
            match to_parquet evicted_df with
            | None => (Raise ParquetError, s2)
            | Some bytes =>
                match temp_dir s2 with
                | None => (Raise (FileNotFoundError (disk_path evict_key)), s2)
                | Some files =>
                    evict_loop rest
                      (set_temp_dir (Some (<[disk_path evict_key := bytes]> files)) s2)
                end
            end
        end
    end
  else (Return tt, s).

(** [_add_to_cache] *)
Definition _add_to_cache (key : string) (df : DataFrame) : M unit :=
  fun s =>
    match _memory_cache s !! key with
    | Some _ => _touch key s
    | None =>
        ((fun s => evict_loop (_access_order s) s) ;;;
         modify (fun s =>
           set_access_order (_access_order s ++ [key])
             (set_memory_cache (<[key := df]> (_memory_cache s)) s))) s
    end.

(** [self.branches[name]] *)
Definition branch_at (name : string) : M Branch :=
  fun s => match branches s !! name with
           | Some b => (Return b, s)
           | None => (Raise (KeyError name), s)
           end.

(** [branch.states[-1].id if branch.states else None] *)
Definition terminal_id (b : Branch) : option string :=
  id <$> last (states b).

(** The [StateRecord] that [commit_state] builds for a branch. *)
Definition commit_record (branch : Branch) (state_id : string)
    (df : DataFrame) (config : Config) (summary now : string) : StateRecord :=
  {| id := state_id;
     parent := terminal_id branch;
     timestamp := now;
     data_hash := _compute_hash df;
     row_count := len_rows df;
     col_count := len_columns df;
     config_snapshot := config;
     delta_summary := summary |}.

(** [commit_state] *)
Definition commit_state (state_id : string) (df : DataFrame)
    (config : Config) (summary : string) (now : string) : M unit :=
  s0 <- get ;;
  let key := state_key (active_branch s0) state_id in
  _add_to_cache key df ;;;
  branch <- branch_at (active_branch s0) ;;
  modify (fun s =>
    set_branches
      (<[active_branch s0 :=
           mkBranch (created_at branch) (forked_from branch)
                    (states branch ++
                     [commit_record branch state_id df config summary now])]>
         (branches s)) s).

(** [load_state] *)
Definition load_state (branch state_id : string) : M DataFrame :=
  fun s =>
    let key := state_key branch state_id in
    match _memory_cache s !! key with
    | Some df => (_touch key ;;; ret df) s
    | None =>
        match temp_dir s ≫= (.!! disk_path key) with
        | Some bytes =>
            match read_parquet bytes with
            | Some df => (_add_to_cache key df ;;; ret df) s
            | None => (Raise ParquetError, s)
            end
        | None =>
            (Raise (StateNotFoundError ("State " +:+ key +:+ " not found")), s)
        end
    end.

(** [get_current_state] *)
Definition get_current_state : M (option DataFrame) :=
  s <- get ;;
  branch <- branch_at (active_branch s) ;;
  match terminal_id branch with
  | None => ret None
  | Some terminal_state =>
      df <- load_state (active_branch s) terminal_state ;;
      ret (Some df)
  end.

(** [get_current_state_id] *)
Definition get_current_state_id : M (option string) :=
  s <- get ;;
  branch <- branch_at (active_branch s) ;;
  ret (terminal_id branch).

(** The loop of [_get_config_at_state]: the first record whose id
    matches, [{}] when none does. *)
Fixpoint find_config (state_id : string) (l : list StateRecord) : Config :=
  match l with
  | [] => empty_config
  | state :: l' =>
      if String.eqb (id state) state_id then config_snapshot state
      else find_config state_id l'
  end.

(** [_get_config_at_state] *)
Definition _get_config_at_state (branch state_id : string) : M Config :=
  b <- branch_at branch ;;
  ret (find_config state_id (states b)).

(** [create_branch]; the clock is read twice, for the branch and for the
    record of the fork point. *)
Definition create_branch (new_branch_name fork_from_state : string)
    (now now' : string) : M unit :=
  s0 <- get ;;
  let source_branch := active_branch s0 in
  source_df <- load_state source_branch fork_from_state ;;
  source_config <- _get_config_at_state source_branch fork_from_state ;;
  modify (fun s =>
    set_branches
      (<[new_branch_name :=
           mkBranch now (Some (source_branch, fork_from_state)) []]>
         (branches s)) s) ;;;
  modify (set_active_branch new_branch_name) ;;;
  commit_state fork_from_state source_df source_config
    ("Forked from " +:+ source_branch +:+ "::" +:+ fork_from_state) now'.

(** [switch_branch]; [states[-1]] raises [IndexError] on an empty list. *)
Definition switch_branch (branch_name : string) : M DataFrame :=
  s <- get ;;
  match branches s !! branch_name with
  | None =>
      raise (ValueError ("Branch '" +:+ branch_name +:+ "' does not exist"))
  | Some b =>
      modify (set_active_branch branch_name) ;;;
      match terminal_id b with
      | None => raise IndexError
      | Some terminal_state => load_state branch_name terminal_state
      end
  end.

(** The keys of a dict that satisfy a test, as a list. *)
Definition keys_where {V} (test : string -> bool) (m : gmap string V)
  : list string :=
  List.filter test (fst <$> map_to_list m).

(** One round of the first [for] loop of [delete_branch]. *)
Definition drop_key (s : StateManager) (key : string) : StateManager :=
  set_access_order (remove_first key (_access_order s))
    (set_memory_cache (delete key (_memory_cache s)) s).

(** The files left in the directory once every file matching the glob
    pattern of [branch_name] is unlinked; a missing directory globs to
    nothing. *)
Definition unlink_branch_files (branch_name : string)
    (d : option (gmap string Parquet)) : option (gmap string Parquet) :=
  (fun files =>
     foldl (fun fs name => delete name fs) files
           (keys_where (glob_match branch_name) files)) <$> d.

(** [delete_branch] *)
Definition delete_branch (branch_name : string) : M unit :=
  if String.eqb branch_name "main" then
    raise (ValueError "Cannot delete main branch")
  else
    s0 <- get ;;
    if String.eqb branch_name (active_branch s0) then
      raise (ValueError "Cannot delete active branch")
    else
      modify (fun s =>
        foldl drop_key s
          (keys_where (fun k => startswith k (branch_name +:+ "::"))
                      (_memory_cache s))) ;;;
      modify (fun s =>
        set_temp_dir (unlink_branch_files branch_name (temp_dir s)) s) ;;;
      s1 <- get ;;
      match branches s1 !! branch_name with
      | None => raise (KeyError branch_name)
      | Some _ => modify (set_branches (delete branch_name (branches s1)))
      end.

(** [compare_branches], up to the report: the two frames it loads, from
    which the row, column and memory figures are computed. *)
Definition compare_branches (branch_a branch_b state_id : string)
  : M (DataFrame * DataFrame) :=
  df_a <- load_state branch_a state_id ;;
  df_b <- load_state branch_b state_id ;;
  ret (df_a, df_b).

(** What [export_pipeline] has written below [output_dir] when it returns:
    [df_raw.parquet], [state_store.json] (every branch with its records,
    and the active branch name), [pipeline_config.json].  [None] is a file
    that was not written. *)
Record ExportBundle : Type := mkExportBundle {
  df_raw_parquet : option Parquet;
  state_store_json : option (gmap string Branch * string);
  pipeline_config_json : option Config
}.

(** The [try ... except StateNotFoundError: pass] block of
    [export_pipeline]: the file contents written, if any. *)
Definition export_raw : M (option Parquet) :=
  fun s =>
    match load_state "main" "df_raw" s with
    | (Return raw_df, s') =>
        match to_parquet raw_df with
        | Some bytes => (Return (Some bytes), s')
        | None => (Raise ParquetError, s')
        end
    | (Raise (StateNotFoundError _), s') => (Return None, s')
    | (Raise e, s') => (Raise e, s')
    end.

(** [export_pipeline] *)
Definition export_pipeline : M ExportBundle :=
  raw <- export_raw ;;
  s <- get ;;
  let store_export := (branches s, active_branch s) in
  branch <- branch_at (active_branch s) ;;
  ret {| df_raw_parquet := raw;
         state_store_json := Some store_export;
         pipeline_config_json := config_snapshot <$> last (states branch) |}.

(** [cleanup]: the cache and the recency list are emptied and the directory
    is removed with its files. *)
Definition cleanup : M unit :=
  modify (fun s =>
    set_temp_dir None (set_access_order [] (set_memory_cache ∅ s))).

(** [reset] *)
Definition reset (now : string) : M unit :=
  cleanup ;;;
  modify (fun s => set_temp_dir (Some (default ∅ (temp_dir s))) s) ;;;
  modify (set_branches {[ "main" := mkBranch now None [] ]}) ;;;
  modify (set_active_branch "main") ;;;
  modify (set_memory_cache ∅) ;;;
  modify (set_access_order []).

(** ** Sequences of public operations *)

Inductive op : Type :=
  | OpCommit (state_id : string) (df : DataFrame) (config : Config)
             (summary now : string)
  | OpLoad (branch state_id : string)
  | OpCurrent
  | OpFork (new_branch_name fork_from_state now now' : string)
  | OpSwitch (branch_name : string)
  | OpDelete (branch_name : string)
  | OpCompare (branch_a branch_b state_id : string)
  | OpExport
  | OpPurge
  | OpReset (now : string).

(** The state an operation leaves behind, whether it returns or raises. *)
Definition step (s : StateManager) (o : op) : StateManager :=
  match o with
  | OpCommit i df c d now => snd (commit_state i df c d now s)
  | OpLoad b i => snd (load_state b i s)
  | OpCurrent => snd (get_current_state s)
  | OpFork n f now now' => snd (create_branch n f now now' s)
  | OpSwitch b => snd (switch_branch b s)
  | OpDelete b => snd (delete_branch b s)
  | OpCompare a b i => snd (compare_branches a b i s)
  | OpExport => snd (export_pipeline s)
  | OpPurge => snd (cleanup s)
  | OpReset now => snd (reset now s)
  end.

Definition run (s : StateManager) (ops : list op) : StateManager :=
  foldl step s ops.

(** ** The capacity invariant *)

(** The number of resident data frames does not exceed the capacity. *)
Definition bounded (s : StateManager) : Prop :=
  (Z.of_nat (size (_memory_cache s)) <= cache_size s)%Z.

(** [s'] has the capacity of [s], and is bounded if [s] is. *)
Definition keeps (s s' : StateManager) : Prop :=
  cache_size s' = cache_size s /\ (bounded s -> bounded s').

(** A method keeps the invariant from every state, returning or raising. *)
Definition Keeps {A} (m : M A) : Prop := forall s, keeps s (snd (m s)).

(** ** The other methods of the class *)

(** The dict [get_branch_summary] returns: two keys for a branch without
    records, five for the others. *)
Inductive BranchSummary : Type :=
  | SummaryEmpty
  | Summary (n_states : nat) (terminal_state : string)
            (rows cols : nat) (last_modified : string).

(** [get_branch_summary] *)
Definition get_branch_summary (branch_name : string) : M BranchSummary :=
  branch <- branch_at branch_name ;;
  match last (states branch) with
  | None => ret SummaryEmpty
  | Some terminal =>
      ret (Summary (length (states branch)) (id terminal)
                   (row_count terminal) (col_count terminal)
                   (timestamp terminal))
  end.

(** [get_state_history]; [branch_name or self.active_branch] takes the
    active branch for [None] and for the empty string. *)
Definition get_state_history (branch_name : option string)
  : M (list StateRecord) :=
  s <- get ;;
  let name :=
    match branch_name with
    | None => active_branch s
    | Some n => if String.eqb n "" then active_branch s else n
    end in
  branch <- branch_at name ;;
  ret (states branch).

(** [df.columns], as the list of column names. *)
Variable columns : DataFrame -> list string.

(** One side of the report of [compare_branches], without the memory
    figure (a float). *)
Record CompareSide : Type := mkCompareSide {
  side_rows : nat;
  side_cols : nat
}.

(** The report of [compare_branches]; the three lists are built from
    Python sets, so they are sets here. *)
Record CompareReport : Type := mkCompareReport {
  report_a : CompareSide;
  report_b : CompareSide;
  columns_only_in_a : gset string;
  columns_only_in_b : gset string;
  common_columns : gset string
}.

Definition comparison_report (df_a df_b : DataFrame) : CompareReport :=
  let cols_a : gset string := list_to_set (columns df_a) in
  let cols_b : gset string := list_to_set (columns df_b) in
  {| report_a := mkCompareSide (len_rows df_a) (length (columns df_a));
     report_b := mkCompareSide (len_rows df_b) (length (columns df_b));
     columns_only_in_a := cols_a ∖ cols_b;
     columns_only_in_b := cols_b ∖ cols_a;
     common_columns := cols_a ∩ cols_b |}.

(** [compare_branches] with its report. *)
Definition compare_report (branch_a branch_b state_id : string)
  : M CompareReport :=
  dfs <- compare_branches branch_a branch_b state_id ;;
  ret (comparison_report (fst dfs) (snd dfs)).

(** ** Consistency of a store *)

(** A recency list without duplicate that lists exactly the cached
    keys. *)
Definition ordered (order : list string) (cache : gmap string DataFrame)
  : Prop :=
  NoDup order /\ (forall k, k ∈ order <-> is_Some (cache !! k)).

(** The recency list and the cache agree, and the active branch is
    registered. *)
Definition consistent (s : StateManager) : Prop :=
  ordered (_access_order s) (_memory_cache s) /\
  is_Some (branches s !! active_branch s).

(** A method keeps the property [P] of the store, returning or raising. *)
Definition Preserves {A} (P : StateManager -> Prop) (m : M A) : Prop :=
  forall s, P s -> P (snd (m s)).

(** A method leaves the component [f] of the store as it is, returning or
    raising. *)
Definition Frames {A B} (f : StateManager -> B) (m : M A) : Prop :=
  forall s, f (snd (m s)) = f s.

(** The records of a branch are chained by [parent]: each one names the id
    of the record before it, the first one names [prev]. *)
Fixpoint linked_from (prev : option string) (l : list StateRecord) : bool :=
  match l with
  | [] => true
  | r :: l' =>
      bool_decide (parent r = prev) && linked_from (Some (id r)) l'
  end.

Definition linked (b : Branch) : bool := linked_from None (states b).

(** Every branch of the registry is chained. *)
Definition all_linked (s : StateManager) : Prop :=
  forall name b, branches s !! name = Some b -> linked b = true.

(** The frame of a key can be served: it is cached or its file is in the
    directory. *)
Definition available (key : string) (s : StateManager) : Prop :=
  is_Some (_memory_cache s !! key) \/
  is_Some (temp_dir s ≫= (.!! disk_path key)).

(** The directory exists and the frame of [key] can be served. *)
Definition served (key : string) (s : StateManager) : Prop :=
  is_Some (temp_dir s) /\ available key s.

(** The operations meant to remove data. *)
Definition erases (o : op) : bool :=
  match o with
  | OpDelete _ | OpPurge | OpReset _ => true
  | _ => false
  end.

(** ** The calls the application makes *)

(** The rollback of [show_sidebar] in [app.py]: nothing for a falsy
    target, otherwise a fork named after the number of branches. *)
Definition rollback (rollback_target : option string) (now now' : string)
  : M unit :=
  match rollback_target with
  | None => ret tt
  | Some target =>
      if String.eqb target "" then ret tt
      else
        s <- get ;;
        create_branch ("branch_" +:+ pretty (size (branches s)))
                      target now now'
  end.

(** What the pages of the application call on the state manager: the
    phases commit and read the current state, the sidebar rolls back and
    reads the history and the current id, the inspector loads states of
    the active branch. *)
Inductive app_op : Type :=
  | AppCommit (state_id : string) (df : DataFrame) (config : Config)
              (summary now : string)
  | AppCurrent
  | AppCurrentId
  | AppHistory
  | AppLoad (state_id : string)
  | AppRollback (rollback_target : option string) (now now' : string).

Definition app_step (s : StateManager) (o : app_op) : StateManager :=
  match o with
  | AppCommit i df c d now => snd (commit_state i df c d now s)
  | AppCurrent => snd (get_current_state s)
  | AppCurrentId => snd (get_current_state_id s)
  | AppHistory => snd (get_state_history None s)
  | AppLoad i => snd (load_state (active_branch s) i s)
  | AppRollback t now now' => snd (rollback t now now' s)
  end.

Definition app_run (s : StateManager) (ops : list app_op) : StateManager :=
  foldl app_step s ops.

(** The registry of a store the application has worked on: [main] and
    the branches [branch_1], ..., numbered up to the size of the
    registry. *)
Definition app_names (s : StateManager) : Prop :=
  forall name,
    is_Some (branches s !! name) <->
    name = "main" \/
    exists k, 1 <= k < size (branches s) /\ name = "branch_" +:+ pretty k.

(** Every cached key is the key of a registered branch and some id. *)
Definition keys_registered (s : StateManager) : Prop :=
  forall key, is_Some (_memory_cache s !! key) ->
    exists b i, key = state_key b i /\ is_Some (branches s !! b).

Definition app_store (s : StateManager) : Prop :=
  consistent s /\ app_names s /\ keys_registered s.

End StateManagerModel.

(** ** Erasing the session ([components/gdpr_consent.py]) *)

(** What [clear_all_session_data] does outside the session dict. *)
Inductive erase_effect : Type :=
  | ManagerCleanup
  | TempDirRecreated.

(** [clear_all_session_data] on the session dict; [temp_exists] tells
    whether [/tmp/pipeline_states] exists.  The result is the session left
    and the effects in the order they happen. *)
Definition clear_all_session_data {V} (session : gmap string V)
    (temp_exists : bool) : gmap string V * list erase_effect :=
  let keys_to_clear :=
    keys_where
      (fun k => startswith k "df_" || startswith k "pipeline_"
                || startswith k "state_")
      session in
  let session1 := foldl (fun m k => delete k m) session keys_to_clear in
  let (session2, cleaned) :=
    match session1 !! "state_manager" with
    | Some _ => (delete "state_manager" session1, [ManagerCleanup])
    | None => (session1, [])
    end in
  let session3 :=
    foldl (fun m k => delete k m) session2
          ["current_phase"; "uploaded_file"; "config"] in
  (session3,
   (cleaned ++ if temp_exists then [TempDirRecreated] else [])%list).

Arguments mkStateRecord {Config}.
Arguments mkBranch {Config}.
Arguments mkStateManager {DataFrame Config Parquet}.
Arguments mkExportBundle {Config Parquet}.
Arguments id {Config}.
Arguments parent {Config}.
Arguments timestamp {Config}.
Arguments data_hash {Config}.
Arguments row_count {Config}.
Arguments col_count {Config}.
Arguments config_snapshot {Config}.
Arguments delta_summary {Config}.
Arguments created_at {Config}.
Arguments forked_from {Config}.
Arguments states {Config}.
Arguments cache_size {DataFrame Config Parquet}.
Arguments temp_dir {DataFrame Config Parquet}.
Arguments branches {DataFrame Config Parquet}.
Arguments active_branch {DataFrame Config Parquet}.
Arguments _memory_cache {DataFrame Config Parquet}.
Arguments _access_order {DataFrame Config Parquet}.
Arguments df_raw_parquet {Config Parquet}.
Arguments state_store_json {Config Parquet}.
Arguments pipeline_config_json {Config Parquet}.
Arguments set_temp_dir {DataFrame Config Parquet}.
Arguments set_branches {DataFrame Config Parquet}.
Arguments set_active_branch {DataFrame Config Parquet}.
Arguments set_memory_cache {DataFrame Config Parquet}.
Arguments set_access_order {DataFrame Config Parquet}.
Arguments ret {DataFrame Config Parquet A}.
Arguments raise {DataFrame Config Parquet A}.
Arguments bind {DataFrame Config Parquet A B}.
Arguments get {DataFrame Config Parquet}.
Arguments modify {DataFrame Config Parquet}.
Arguments init {DataFrame Config Parquet}.
Arguments _touch {DataFrame Config Parquet}.
Arguments evict_loop {DataFrame Config Parquet}.
Arguments _add_to_cache {DataFrame Config Parquet}.
Arguments branch_at {DataFrame Config Parquet}.
Arguments terminal_id {Config}.
Arguments commit_state {DataFrame Config Parquet}.
Arguments load_state {DataFrame Config Parquet}.
Arguments get_current_state {DataFrame Config Parquet}.
Arguments get_current_state_id {DataFrame Config Parquet}.
Arguments find_config {Config}.
Arguments _get_config_at_state {DataFrame Config Parquet}.
Arguments create_branch {DataFrame Config Parquet}.
Arguments switch_branch {DataFrame Config Parquet}.
Arguments drop_key {DataFrame Config Parquet}.
Arguments unlink_branch_files {Parquet}.
Arguments delete_branch {DataFrame Config Parquet}.
Arguments compare_branches {DataFrame Config Parquet}.
Arguments export_raw {DataFrame Config Parquet}.
Arguments export_pipeline {DataFrame Config Parquet}.
Arguments cleanup {DataFrame Config Parquet}.
Arguments reset {DataFrame Config Parquet}.
Arguments OpCommit {DataFrame Config}.
Arguments OpLoad {DataFrame Config}.
Arguments OpCurrent {DataFrame Config}.
Arguments OpFork {DataFrame Config}.
Arguments OpSwitch {DataFrame Config}.
Arguments OpDelete {DataFrame Config}.
Arguments OpCompare {DataFrame Config}.
Arguments OpExport {DataFrame Config}.
Arguments OpPurge {DataFrame Config}.
Arguments OpReset {DataFrame Config}.
Arguments commit_record {DataFrame Config}.
Arguments bounded {DataFrame Config Parquet}.
Arguments keeps {DataFrame Config Parquet}.
Arguments Keeps {DataFrame Config Parquet A}.
Arguments step {DataFrame Config Parquet}.
Arguments get_branch_summary {DataFrame Config Parquet}.
Arguments get_state_history {DataFrame Config Parquet}.
Arguments comparison_report {DataFrame}.
Arguments compare_report {DataFrame Config Parquet}.
Arguments ordered {DataFrame}.
Arguments consistent {DataFrame Config Parquet}.
Arguments Preserves {DataFrame Config Parquet A}.
Arguments Frames {DataFrame Config Parquet A B}.
Arguments linked_from {Config}.
Arguments linked {Config}.
Arguments all_linked {DataFrame Config Parquet}.
Arguments available {DataFrame Config Parquet}.
Arguments served {DataFrame Config Parquet}.
Arguments erases {DataFrame Config}.
Arguments rollback {DataFrame Config Parquet}.
Arguments AppCommit {DataFrame Config}.
Arguments AppCurrent {DataFrame Config}.
Arguments AppCurrentId {DataFrame Config}.
Arguments AppHistory {DataFrame Config}.
Arguments AppLoad {DataFrame Config}.
Arguments AppRollback {DataFrame Config}.
Arguments app_step {DataFrame Config Parquet}.
Arguments app_run {DataFrame Config Parquet}.
Arguments app_names {DataFrame Config Parquet}.
Arguments keys_registered {DataFrame Config Parquet}.
Arguments app_store {DataFrame Config Parquet}.
Arguments run {DataFrame Config Parquet}.

(** ** A concrete instance, for evaluating the methods

    Data frames are lists of integer rows, a Parquet file holds the rows it
    was written from, and the digest is the decimal rendering of the sum of
    the cells. *)

Module Demo.

Definition frame : Type := list (list Z).
Definition config : Type := list (string * string).

Definition digest (df : frame) : string :=
  pretty (foldr Z.add 0%Z (concat df)).
Definition rows (df : frame) : nat := length df.
Definition columns (df : frame) : nat := length (hd [] df).

Definition store : Type := StateManager frame config frame.

(** The dict [{}] *)
Definition no_config : config := [].

(** [StateManager(cache_size=size)] over an empty directory. *)
Definition new (size : Z) : store := init size None "t0".

Definition commit (i : string) (df : frame) (c : config) : M frame config frame unit :=
  commit_state Some digest rows columns i df c "" "t".
Definition load (b i : string) : M frame config frame frame :=
  load_state Some Some b i.
Definition current : M frame config frame (option frame) :=
  get_current_state Some Some.
Definition fork (n f : string) : M frame config frame unit :=
  create_branch Some Some digest rows columns no_config n f "t" "t".
Definition switch (b : string) : M frame config frame frame :=
  switch_branch Some Some b.
Definition delete (b : string) : M frame config frame unit :=
  delete_branch b.
Definition export : M frame config frame (ExportBundle config frame) :=
  export_pipeline Some Some.

(** Columns are named by their position. *)
Definition column_names (df : frame) : list string :=
  pretty <$> seq 0 (columns df).

Definition compare (a b i : string) : M frame config frame CompareReport :=
  compare_report Some Some rows column_names a b i.
Definition undo (target : option string) : M frame config frame unit :=
  rollback Some Some digest rows columns no_config target "t" "t".
Definition app (s : store) (ops : list (app_op frame config)) : store :=
  app_run Some Some digest rows columns no_config s ops.
Definition public (s : store) (ops : list (op frame config)) : store :=
  run Some Some digest rows columns no_config s ops.

(** The state left by a method, to chain calls. *)
Definition after {A} (m : M frame config frame A) (s : store) : store :=
  snd (m s).

Definition df1 : frame := [[1]; [2]; [3]; [4]; [5]]%Z.
Definition df2 : frame := [[10]; [20]; [30]; [40]; [50]]%Z.
Definition df3 : frame := [[7]; [7]; [7]; [7]; [7]]%Z.

(** The store of capacity 1 with branches [main], [a] and [a__b], the
    frames of [a__b] written out, [main] active. *)
Definition three_branches : store :=
  after (switch "main")
    (after (commit "t" df2 [])
       (after (fork "a__b" "s")
          (after (fork "a" "s")
             (after (commit "s" df1 []) (new 1))))).

(** The store of capacity 5 with branches [main], [a] and [a::b], every
    frame cached, [main] active. *)
Definition nested_names : store :=
  after (switch "main")
    (after (fork "a::b" "s")
       (after (fork "a" "s")
          (after (commit "s" df1 []) (new 5)))).

(** The store of capacity 5 where [main] has the records [x::s] (frame
    [df2]) and [s] (frame [df1]), and the branch [b::x] was forked from
    [s]; [main] is active and no branch is called [b]. *)
Definition colliding_keys : store :=
  after (switch "main")
    (after (fork "b::x" "s")
       (after (commit "s" df1 [])
          (after (commit "x::s" df2 []) (new 5)))).

(** The store of capacity 5 where the branch [b], forked from [main], has a
    record [t] with frame [df2], and [main], active, has a record [t] with
    frame [df3]. *)
Definition reused_name : store :=
  after (commit "t" df3 [])
    (after (switch "main")
       (after (commit "t" df2 [])
          (after (fork "b" "s")
             (after (commit "s" df1 []) (new 5))))).

End Demo.

(** * Properties *)

Section Properties.

Context {DataFrame Config Parquet : Type}.
Variable to_parquet : DataFrame -> option Parquet.
Variable read_parquet : Parquet -> option DataFrame.
Variable _compute_hash : DataFrame -> string.
Variable len_rows : DataFrame -> nat.
Variable len_columns : DataFrame -> nat.
Variable empty_config : Config.

Local Abbreviation SM := (StateManager DataFrame Config Parquet).
Local Abbreviation Meth := (M DataFrame Config Parquet).
Local Abbreviation add_to_cache := (_add_to_cache to_parquet).
Local Abbreviation commit :=
  (commit_state to_parquet _compute_hash len_rows len_columns).
Local Abbreviation bounded := (@bounded DataFrame Config Parquet).
Local Abbreviation keeps := (@keeps DataFrame Config Parquet).
Local Abbreviation Keeps := (@Keeps DataFrame Config Parquet _).
Local Abbreviation commit_record :=
  (commit_record _compute_hash len_rows len_columns).
Local Abbreviation load := (load_state to_parquet read_parquet).
Local Abbreviation current := (get_current_state to_parquet read_parquet).
Local Abbreviation fork :=
  (create_branch to_parquet read_parquet _compute_hash len_rows len_columns
                 empty_config).
Local Abbreviation switch := (switch_branch to_parquet read_parquet).
Local Abbreviation export := (export_pipeline to_parquet read_parquet).
Local Abbreviation step' :=
  (step to_parquet read_parquet _compute_hash len_rows len_columns
        empty_config).
Local Abbreviation run' :=
  (run to_parquet read_parquet _compute_hash len_rows len_columns
       empty_config).

(** ** Finite-map and list facts *)

Lemma size_delete_Some {V} (m : gmap string V) k d :
  m !! k = Some d -> size m = S (size (delete k m)).
Proof.
  intros Hk. rewrite <- (insert_delete_id m k d Hk) at 1.
  apply map_size_insert_None, lookup_delete_eq.
Qed.

Lemma size_delete_le {V} (m : gmap string V) k :
  size (delete k m) <= size m.
Proof.
  destruct (m !! k) as [d |] eqn:Hk.
  - rewrite (size_delete_Some m k d Hk). lia.
  - by rewrite delete_id.
Qed.

Lemma size_one {V} (k : string) (d : V) :
  size (<[k := d]> (∅ : gmap string V)) = 1.
Proof.
  rewrite map_size_insert_None by apply lookup_empty.
  by rewrite map_size_empty.
Qed.

Lemma size_two {V} (k1 k2 : string) (d1 d2 : V) :
  k1 <> k2 -> size (<[k2 := d2]> (<[k1 := d1]> (∅ : gmap string V))) = 2.
Proof.
  intros N. rewrite map_size_insert_None; [by rewrite size_one |].
  by rewrite lookup_insert_ne, lookup_empty.
Qed.

(** ** The capacity bound *)

Lemma keeps_refl (s : SM) : keeps s s.
Proof. by split. Qed.

Lemma keeps_trans (s1 s2 s3 : SM) :
  keeps s1 s2 -> keeps s2 s3 -> keeps s1 s3.
Proof. intros [E1 B1] [E2 B2]. split; [congruence | auto]. Qed.

Lemma Keeps_ret {A} (a : A) : Keeps (ret a : Meth A).
Proof. intros s. apply keeps_refl. Qed.

Lemma Keeps_raise {A} e : Keeps (raise e : Meth A).
Proof. intros s. apply keeps_refl. Qed.

Lemma Keeps_get : Keeps (get : Meth SM).
Proof. intros s. apply keeps_refl. Qed.

Lemma Keeps_modify (f : SM -> SM) :
  (forall s, keeps s (f s)) -> Keeps (modify f).
Proof. intros H s. apply H. Qed.

Lemma Keeps_bind {A B} (m : Meth A) (k : A -> Meth B) :
  Keeps m -> (forall a, Keeps (k a)) -> Keeps (bind m k).
Proof.
  intros Hm Hk s. unfold bind. specialize (Hm s).
  destruct (m s) as [[a | e] s1]; simpl in *; [| done].
  eapply keeps_trans; [exact Hm | apply Hk].
Qed.

(** A state that differs only outside the cache and the capacity. *)
Lemma keeps_same_cache (s s' : SM) :
  cache_size s' = cache_size s -> _memory_cache s' = _memory_cache s ->
  keeps s s'.
Proof. intros Hc Hm. split; [done |]. unfold bounded. by rewrite Hc, Hm. Qed.

(** A state whose cache did not grow. *)
Lemma keeps_smaller (s s' : SM) :
  cache_size s' = cache_size s ->
  size (_memory_cache s') <= size (_memory_cache s) ->
  keeps s s'.
Proof. intros Hc Hm. split; [done |]. unfold bounded. rewrite Hc. lia. Qed.

Lemma Keeps_touch key : Keeps (_touch key : Meth unit).
Proof. intros s. by apply keeps_same_cache. Qed.

(** The eviction loop keeps the capacity, never grows the cache, and
    leaves room for one entry when it returns. *)
Lemma evict_loop_spec order : forall s : SM,
  let r := evict_loop to_parquet order s in
  cache_size (snd r) = cache_size s /\
  size (_memory_cache (snd r)) <= size (_memory_cache s) /\
  (fst r = Return tt ->
   (Z.of_nat (size (_memory_cache (snd r))) < cache_size s)%Z).
Proof.
  induction order as [| k rest IH]; intros s; simpl.
  - destruct (Z.leb_spec (cache_size s) (Z.of_nat (size (_memory_cache s))));
      simpl; repeat split; auto; try lia. discriminate.
  - destruct (Z.leb_spec (cache_size s) (Z.of_nat (size (_memory_cache s))));
      simpl; [| repeat split; auto; lia].
    destruct (_memory_cache s !! k) as [d |] eqn:Hk; simpl;
      [| repeat split; auto; discriminate].
    pose proof (size_delete_Some _ _ _ Hk) as Hdel.
    destruct (to_parquet d) as [bytes |]; simpl;
      [| repeat split; auto; [lia | discriminate]].
    destruct (temp_dir s) as [files |]; simpl;
      [| repeat split; auto; [lia | discriminate]].
    match goal with |- context [evict_loop _ rest ?s1] =>
      destruct (IH s1) as (E & L & R) end.
    simpl in *. repeat split; auto. lia.
Qed.

(** The loop raises no [StateNotFoundError]. *)
Lemma evict_loop_raises order : forall (s s' : SM) e,
  evict_loop to_parquet order s = (Raise e, s') ->
  forall msg, e <> StateNotFoundError msg.
Proof.
  induction order as [| k rest IH]; intros s s' e; simpl.
  - destruct (_ <=? _)%Z; [| done]. by intros [= <- _].
  - destruct (_ <=? _)%Z; [| done].
    destruct (_memory_cache s !! k) as [d |]; [| by intros [= <- _]].
    destruct (to_parquet d); [| by intros [= <- _]].
    destruct (temp_dir s); [| by intros [= <- _]].
    apply IH.
Qed.

Lemma Keeps_add_to_cache key df : Keeps (add_to_cache key df).
Proof.
  intros s. unfold _add_to_cache.
  destruct (_memory_cache s !! key) eqn:Hk; [apply Keeps_touch |].
  unfold bind. destruct (evict_loop_spec (_access_order s) s) as (E & L & R).
  destruct (evict_loop to_parquet (_access_order s) s) as [[[] | e] s1];
    simpl in *.
  - split; [done |]. intros _. unfold bounded. simpl. rewrite E.
    specialize (R eq_refl).
    destruct (_memory_cache s1 !! key) as [d |] eqn:Hk1.
    + rewrite map_size_insert_Some by eauto. lia.
    + rewrite map_size_insert_None by done. lia.
  - by apply keeps_smaller.
Qed.

Lemma Keeps_branch_at name : Keeps (branch_at name : Meth (Branch Config)).
Proof.
  intros s. unfold branch_at. destruct (branches s !! name); apply keeps_refl.
Qed.

Create HintDb keeps.

#[local] Hint Resolve Keeps_ret Keeps_raise Keeps_get Keeps_touch
  Keeps_add_to_cache Keeps_branch_at : keeps.

(** Splits a method body along its binds. *)
Ltac keeps_step :=
  first [ apply Keeps_bind; [| intros ?]
        | apply Keeps_modify; intros ?; by apply keeps_same_cache
        | solve [auto with keeps] ].

Lemma Keeps_commit i df c d now : Keeps (commit i df c d now).
Proof. unfold commit_state. repeat keeps_step. Qed.

Lemma Keeps_load b i : Keeps (load b i).
Proof.
  intros s. unfold load_state.
  destruct (_memory_cache s !! state_key b i).
  - revert s. repeat keeps_step.
  - destruct (temp_dir s ≫= _) as [bytes |]; [| apply keeps_refl].
    destruct (read_parquet bytes) as [df |]; [| apply keeps_refl].
    revert s. repeat keeps_step.
Qed.

#[local] Hint Resolve Keeps_commit Keeps_load : keeps.

Lemma Keeps_current : Keeps current.
Proof.
  unfold get_current_state. repeat keeps_step.
  destruct (terminal_id _); repeat keeps_step.
Qed.

Lemma Keeps_get_config b i : Keeps (_get_config_at_state empty_config b i).
Proof. unfold _get_config_at_state. repeat keeps_step. Qed.

#[local] Hint Resolve Keeps_get_config : keeps.

Lemma Keeps_fork n f now now' : Keeps (fork n f now now').
Proof. unfold create_branch. repeat keeps_step. Qed.

Lemma Keeps_switch b : Keeps (switch b).
Proof.
  unfold switch_branch. keeps_step; [auto with keeps |].
  destruct (branches _ !! b) as [br |]; [| auto with keeps].
  keeps_step; [keeps_step |]. destruct (terminal_id br); auto with keeps.
Qed.

Lemma drop_keys_spec keys : forall s : SM,
  cache_size (foldl drop_key s keys) = cache_size s /\
  size (_memory_cache (foldl drop_key s keys)) <= size (_memory_cache s).
Proof.
  induction keys as [| k keys IH]; intros s; simpl; [lia |].
  destruct (IH (drop_key s k)) as [E L]. simpl in *. split; [done |].
  pose proof (size_delete_le (_memory_cache s) k). lia.
Qed.

Lemma Keeps_delete b : Keeps (delete_branch (DataFrame := DataFrame)
                                (Config := Config) (Parquet := Parquet) b).
Proof.
  unfold delete_branch. destruct (String.eqb b "main"); [auto with keeps |].
  keeps_step; [auto with keeps |].
  destruct (String.eqb b (active_branch _)); [auto with keeps |].
  keeps_step.
  { apply Keeps_modify. intros s.
    destruct (drop_keys_spec
                (keys_where (fun k => startswith k (b +:+ "::"))
                            (_memory_cache s)) s).
    by apply keeps_smaller. }
  keeps_step; [keeps_step |]. keeps_step; [auto with keeps |].
  destruct (branches _ !! b); repeat keeps_step.
Qed.

Lemma Keeps_compare a b i :
  Keeps (compare_branches to_parquet read_parquet a b i).
Proof. unfold compare_branches. repeat keeps_step. Qed.

Lemma Keeps_export_raw : Keeps (export_raw to_parquet read_parquet).
Proof.
  intros s. unfold export_raw. pose proof (Keeps_load "main" "df_raw" s) as H.
  destruct (load "main" "df_raw" s) as [[df | e] s']; simpl in *.
  - by destruct (to_parquet df).
  - by destruct e.
Qed.

#[local] Hint Resolve Keeps_export_raw : keeps.

Lemma Keeps_export : Keeps export.
Proof. unfold export_pipeline. repeat keeps_step. Qed.

Lemma Keeps_cleanup : Keeps (cleanup (DataFrame := DataFrame)
                               (Config := Config) (Parquet := Parquet)).
Proof.
  apply Keeps_modify. intros s. apply keeps_smaller; [done |].
  simpl. rewrite map_size_empty. lia.
Qed.

Lemma Keeps_reset now : Keeps (reset (DataFrame := DataFrame)
                                 (Config := Config) (Parquet := Parquet) now).
Proof.
  unfold reset. keeps_step; [apply Keeps_cleanup |]. repeat keeps_step.
  apply Keeps_modify. intros s. apply keeps_smaller; [done |].
  simpl. rewrite map_size_empty. lia.
Qed.

Lemma keeps_step' o s : keeps s (step' s o).
Proof.
  destruct o; simpl.
  - apply Keeps_commit.
  - apply Keeps_load.
  - apply Keeps_current.
  - apply Keeps_fork.
  - apply Keeps_switch.
  - apply Keeps_delete.
  - apply Keeps_compare.
  - apply Keeps_export.
  - apply Keeps_cleanup.
  - apply Keeps_reset.
Qed.

Lemma keeps_run ops : forall s, keeps s (run' s ops).
Proof.
  induction ops as [| o ops IH]; intros s; simpl; [apply keeps_refl |].
  eapply keeps_trans; [apply keeps_step' | apply IH].
Qed.

(** C3. A store constructed with [cache_size >= 1] holds at most
    [cache_size] data frames in memory after any sequence of public
    operations (commit, load, current, fork, switch, delete_branch,
    compare, export, purge, reset), whether they return or raise, and its
    capacity is the one it was constructed with. *)
Theorem cache_never_exceeds_capacity
    (n : Z) (pre : option (gmap string Parquet)) (now : string)
    (ops : list (op DataFrame Config)) :
  (1 <= n)%Z ->
  let s := run' (init n pre now) ops in
  (Z.of_nat (size (_memory_cache s)) <= n)%Z /\ cache_size s = n.
Proof.
  intros Hn. destruct (keeps_run ops (init n pre now)) as [E B].
  simpl in *. split; [| done].
  unfold bounded in B. rewrite E in B. apply B.
  simpl. rewrite map_size_empty. lia.
Qed.

(** Reduces the projections of an explicit state. *)
Ltac proj :=
  cbn [cache_size temp_dir branches active_branch _memory_cache _access_order
       init set_temp_dir set_branches set_active_branch set_memory_cache
       set_access_order fst snd app].

(** ** Erasure *)

(** C1. After [cleanup] (purge) the cache is empty and the directory holds
    no file, so [load_state] of any key, a previously committed one in
    particular, raises [StateNotFoundError] and leaves the store as it is;
    after [reset] the store is the freshly constructed one of the same
    capacity: a single empty branch [main], which is active, and no current
    state. *)
Theorem purge_and_reset_erase (s : SM) (branch state_id now : string) :
  let p := snd (cleanup s) in
  let fresh : SM := init (cache_size s) None now in
  fst (cleanup s) = Return tt /\
  _memory_cache p = ∅ /\
  (forall name, temp_dir p ≫= (.!! name) = None) /\
  load branch state_id p =
    (Raise (StateNotFoundError
              ("State " +:+ state_key branch state_id +:+ " not found")), p) /\
  reset now s = (Return tt, fresh) /\
  branches fresh = {[ "main" := mkBranch now None [] ]} /\
  active_branch fresh = "main" /\
  current fresh = (Return None, fresh).
Proof.
  simpl. split; [done |]. split; [done |]. split; [done |].
  split; [| by repeat split].
  unfold load_state. simpl. by rewrite lookup_empty.
Qed.

(** ** Forking from a state that is nowhere *)

(** C10. When the key of [fork_from_state] on the active branch is neither
    in the cache nor on disk, [create_branch] raises [StateNotFoundError]
    and the store is unchanged: the registry and the active branch are the
    ones before the call. *)
Theorem fork_from_missing_state_fails
    (s : SM) (new_branch_name fork_from_state now now' : string) :
  let key := state_key (active_branch s) fork_from_state in
  _memory_cache s !! key = None ->
  temp_dir s ≫= (.!! disk_path key) = None ->
  fork new_branch_name fork_from_state now now' s =
    (Raise (StateNotFoundError ("State " +:+ key +:+ " not found")), s).
Proof.
  intros key Hc Hd. unfold create_branch, bind, get, load_state.
  fold key. by rewrite Hc, Hd.
Qed.

(** ** Committing and loading, step by step *)

Lemma evict_loop_room order (s : SM) :
  (Z.of_nat (size (_memory_cache s)) < cache_size s)%Z ->
  evict_loop to_parquet order s = (Return tt, s).
Proof.
  intros H.
  destruct order; simpl;
    destruct (Z.leb_spec (cache_size s) (Z.of_nat (size (_memory_cache s))));
    done || lia.
Qed.

(** A full cache whose least recently used entry can be written out: one
    round of the loop makes room. *)
Lemma evict_loop_one k rest d bytes files (s : SM) :
  cache_size s = Z.of_nat (size (_memory_cache s)) ->
  _memory_cache s !! k = Some d ->
  to_parquet d = Some bytes ->
  temp_dir s = Some files ->
  evict_loop to_parquet (k :: rest) s =
    (Return tt,
     mkStateManager (cache_size s) (Some (<[disk_path k := bytes]> files))
       (branches s) (active_branch s) (delete k (_memory_cache s)) rest).
Proof.
  intros Hfull Hk Hp Hd. simpl.
  destruct (Z.leb_spec (cache_size s) (Z.of_nat (size (_memory_cache s))));
    [| lia].
  rewrite Hk, Hp, Hd. apply evict_loop_room. simpl.
  rewrite (size_delete_Some _ _ _ Hk) in Hfull. lia.
Qed.

Lemma add_to_cache_room key df (s : SM) :
  _memory_cache s !! key = None ->
  (Z.of_nat (size (_memory_cache s)) < cache_size s)%Z ->
  add_to_cache key df s =
    (Return tt,
     mkStateManager (cache_size s) (temp_dir s) (branches s) (active_branch s)
       (<[key := df]> (_memory_cache s)) (_access_order s ++ [key])).
Proof.
  intros Hk Hroom. unfold _add_to_cache, bind. rewrite Hk.
  by rewrite evict_loop_room.
Qed.

Lemma add_to_cache_evict_one key df k rest d bytes files (s : SM) :
  _memory_cache s !! key = None ->
  _access_order s = k :: rest ->
  cache_size s = Z.of_nat (size (_memory_cache s)) ->
  _memory_cache s !! k = Some d ->
  to_parquet d = Some bytes ->
  temp_dir s = Some files ->
  add_to_cache key df s =
    (Return tt,
     mkStateManager (cache_size s) (Some (<[disk_path k := bytes]> files))
       (branches s) (active_branch s)
       (<[key := df]> (delete k (_memory_cache s))) (rest ++ [key])).
Proof.
  intros Hk Ho Hfull Hl Hp Hd. unfold _add_to_cache, bind. rewrite Hk, Ho.
  by rewrite (evict_loop_one k rest d bytes files s).
Qed.

(** [commit_state] once [_add_to_cache] has returned. *)
Lemma commit_after_add i df c d now br (s s1 : SM) :
  add_to_cache (state_key (active_branch s) i) df s = (Return tt, s1) ->
  branches s1 !! active_branch s = Some br ->
  commit i df c d now s =
    (Return tt,
     set_branches
       (<[active_branch s :=
            mkBranch (created_at br) (forked_from br)
                     (states br ++ [commit_record br i df c d now])]>
          (branches s1)) s1).
Proof.
  intros Ha Hb. unfold commit_state, bind, get, branch_at, modify.
  by rewrite Ha, Hb.
Qed.

(** [load_state] on a cache miss, when the file is there and decodes. *)
Lemma load_from_disk b i bytes df (s s1 : SM) :
  _memory_cache s !! state_key b i = None ->
  temp_dir s ≫= (.!! disk_path (state_key b i)) = Some bytes ->
  read_parquet bytes = Some df ->
  add_to_cache (state_key b i) df s = (Return tt, s1) ->
  load b i s = (Return df, s1).
Proof.
  intros Hc Hd Hr Ha. unfold load_state, bind, ret.
  by rewrite Hc, Hd, Hr, Ha.
Qed.

Lemma append_inj_r (b x y : string) : b +:+ x = b +:+ y -> x = y.
Proof. induction b as [| a b IH]; simpl; [done |]. intros [= H]. auto. Qed.

Lemma state_key_inj_r (b i j : string) :
  state_key b i = state_key b j -> i = j.
Proof. unfold state_key. intros H. by do 2 apply append_inj_r in H. Qed.

(** ** The capacity-two scenario *)

(** C2. In a store of capacity 2, after three commits with distinct ids
    [i1], [i2], [i3] on [main], the first data frame is out of the cache
    and its Parquet file is in the directory; [load_state("main", i1)]
    returns the frame that was committed (the file decodes to it) and
    leaves exactly the keys of [i1] and [i3] in the cache, the frame of
    [i2] having been written out. *)
Theorem capacity_two_scenario
    (pre : option (gmap string Parquet)) (now : string)
    (i1 i2 i3 : string) (d1 d2 d3 : DataFrame) (c1 c2 c3 : Config)
    (m1 m2 m3 t1 t2 t3 : string) (p1 p2 : Parquet) :
  i1 <> i2 -> i1 <> i3 -> i2 <> i3 ->
  to_parquet d1 = Some p1 -> read_parquet p1 = Some d1 ->
  to_parquet d2 = Some p2 ->
  let k1 := state_key "main" i1 in
  let k2 := state_key "main" i2 in
  let k3 := state_key "main" i3 in
  let s3 := run' (init 2 pre now)
              [OpCommit i1 d1 c1 m1 t1; OpCommit i2 d2 c2 m2 t2;
               OpCommit i3 d3 c3 m3 t3] in
  let s4 := snd (load "main" i1 s3) in
  _memory_cache s3 !! k1 = None /\
  temp_dir s3 ≫= (.!! disk_path k1) = Some p1 /\
  fst (load "main" i1 s3) = Return d1 /\
  dom (_memory_cache s4) = {[k1; k3]} /\
  _memory_cache s4 !! k1 = Some d1 /\
  _memory_cache s4 !! k3 = Some d3 /\
  _memory_cache s4 !! k2 = None /\
  temp_dir s4 ≫= (.!! disk_path k2) = Some p2.
Proof.
  intros N12 N13 N23 Hp1 Hr1 Hp2 k1 k2 k3.
  assert (K12 : k1 <> k2) by (intros E; by apply state_key_inj_r in E).
  assert (K13 : k1 <> k3) by (intros E; by apply state_key_inj_r in E).
  assert (K23 : k2 <> k3) by (intros E; by apply state_key_inj_r in E).
  cbn [run foldl step].
  (* first commit: the cache is empty *)
  erewrite (commit_after_add i1); cycle 1.
  { apply add_to_cache_room; proj; [apply lookup_empty |].
    rewrite map_size_empty. lia. }
  { proj. apply lookup_singleton_eq. }
  proj.
  (* second commit: one entry, room for another *)
  erewrite (commit_after_add i2); cycle 1.
  { apply add_to_cache_room; proj.
    - fold k1 k2. by rewrite lookup_insert_ne, lookup_empty.
    - rewrite size_one. lia. }
  { proj. apply lookup_insert_eq. }
  proj.
  (* third commit: the cache is full, the entry of [i1] is written out *)
  erewrite (commit_after_add i3); cycle 1.
  { eapply (add_to_cache_evict_one _ _ k1 [k2] d1 p1); proj; fold k1 k2 k3.
    - by rewrite !lookup_insert_ne, lookup_empty.
    - done.
    - by rewrite size_two.
    - by rewrite lookup_insert_ne, lookup_insert_eq.
    - done.
    - done. }
  { proj. apply lookup_insert_eq. }
  proj. fold k1 k2 k3.
  assert (Hc : delete k1 (<[k2:=d2]> (<[k1:=d1]> (∅ : gmap string DataFrame)))
               = <[k2:=d2]> ∅).
  { rewrite delete_insert_ne by done. by rewrite delete_insert_eq, delete_empty. }
  rewrite Hc. clear Hc.
  match goal with |- context [load "main" i1 ?s] => set (s3 := s) end.
  assert (Hload : load "main" i1 s3 =
    (Return d1,
     mkStateManager (cache_size s3)
       (Some (<[disk_path k2 := p2]> (<[disk_path k1 := p1]> (default ∅ pre))))
       (branches s3) (active_branch s3)
       (<[k1 := d1]> (delete k2 (_memory_cache s3))) ([k3] ++ [k1]))).
  { apply (load_from_disk _ _ p1); fold k1; subst s3; proj.
    - by rewrite !lookup_insert_ne, lookup_empty.
    - apply lookup_insert_eq.
    - done.
    - eapply (add_to_cache_evict_one _ _ k2 [k3] d2 p2); proj.
      + by rewrite !lookup_insert_ne, lookup_empty.
      + done.
      + by rewrite size_two.
      + by rewrite lookup_insert_ne, lookup_insert_eq.
      + done.
      + done. }
  rewrite Hload. subst s3. proj.
  rewrite delete_insert_ne, delete_insert_eq, delete_empty by done.
  repeat split.
  - by rewrite !lookup_insert_ne, lookup_empty.
  - apply lookup_insert_eq.
  - rewrite !dom_insert_L, dom_empty_L. by rewrite (right_id_L ∅ (∪)).
  - apply lookup_insert_eq.
  - by rewrite lookup_insert_ne, lookup_insert_eq.
  - by rewrite !lookup_insert_ne, lookup_empty.
  - apply lookup_insert_eq.
Qed.

(** ** Export *)

(** [load_state] raises [StateNotFoundError] exactly on a key that is
    neither cached nor on disk, and then leaves the store alone. *)
Lemma load_not_found b i msg (s s' : SM) :
  load b i s = (Raise (StateNotFoundError msg), s') ->
  _memory_cache s !! state_key b i = None /\
  temp_dir s ≫= (.!! disk_path (state_key b i)) = None /\
  s' = s.
Proof.
  unfold load_state, bind, ret, _touch, modify.
  destruct (_memory_cache s !! state_key b i) eqn:Hc; [done |].
  destruct (temp_dir s ≫= _) as [bytes |] eqn:Hd; [| by intros [= _ <-]].
  destruct (read_parquet bytes) as [df |]; [| done].
  unfold _add_to_cache, bind, modify. rewrite Hc.
  pose proof (evict_loop_raises (_access_order s) s) as Hev.
  destruct (evict_loop to_parquet (_access_order s) s) as [[[] | e] s1];
    [done |].
  intros [= -> _]. by destruct (Hev _ _ eq_refl msg).
Qed.

Lemma is_Some_config (l : list (StateRecord Config)) :
  is_Some (config_snapshot <$> last l) <-> l <> [].
Proof.
  split.
  - intros [c Hc] ->. done.
  - intros Hne. destruct (last l) eqn:El; [by eauto |].
    by apply last_None in El.
Qed.

(** C8, as the code has it.  [export_pipeline] never raises
    [StateNotFoundError]: the one from loading [main::df_raw] is caught and
    the method goes on without that file.  Whenever it returns, it has
    written the metadata of every branch with the active branch name; it
    has written the origin data frame exactly when the load returned, and
    the configuration exactly when the active branch has a record.  Any
    other exception of the load is passed on to the caller.  On a store
    where [main::df_raw] is neither cached nor on disk it returns, without
    the origin file, and leaves the store as it was. *)
Theorem export_pipeline_outcome (s : SM) :
  (forall msg s', export s <> (Raise (StateNotFoundError msg), s')) /\
  (forall bundle s', export s = (Return bundle, s') ->
     state_store_json bundle = Some (branches s', active_branch s') /\
     (is_Some (df_raw_parquet bundle) <->
      exists df, fst (load "main" "df_raw" s) = Return df) /\
     (exists br, branches s' !! active_branch s' = Some br /\
        pipeline_config_json bundle = config_snapshot <$> last (states br) /\
        (is_Some (pipeline_config_json bundle) <-> states br <> []))) /\
  (forall e, fst (load "main" "df_raw" s) = Raise e ->
     (forall msg, e <> StateNotFoundError msg) ->
     fst (export s) = Raise e) /\
  (forall br,
     _memory_cache s !! state_key "main" "df_raw" = None ->
     temp_dir s ≫= (.!! disk_path (state_key "main" "df_raw")) = None ->
     branches s !! active_branch s = Some br ->
     export s =
       (Return {| df_raw_parquet := None;
                  state_store_json := Some (branches s, active_branch s);
                  pipeline_config_json :=
                    config_snapshot <$> last (states br) |}, s)).
Proof.
  unfold export_pipeline, export_raw, bind, get, branch_at, ret.
  split; [| split; [| split]].
  - intros msg s'.
    destruct (load "main" "df_raw" s) as [[df | e] s1].
    + destruct (to_parquet df); [| done].
      by destruct (branches s1 !! active_branch s1).
    + destruct e; try done. by destruct (branches s1 !! active_branch s1).
  - intros bundle s'.
    destruct (load "main" "df_raw" s) as [[df | e] s1]; simpl.
    + destruct (to_parquet df); [| done].
      destruct (branches s1 !! active_branch s1) as [br |] eqn:Hb; [| done].
      intros [= <- <-]. simpl. split; [done |].
      split; [split; [by exists df | by eauto] |].
      exists br. split; [done |]. split; [done |]. apply is_Some_config.
    + destruct e; try done.
      destruct (branches s1 !! active_branch s1) as [br |] eqn:Hb; [| done].
      intros [= <- <-]. simpl. split; [done |]. split.
      * split; [by intros [x Hx] | by intros [x Hx]].
      * exists br. split; [done |]. split; [done |]. apply is_Some_config.
  - intros e. destruct (load "main" "df_raw" s) as [[df | e'] s1]; simpl;
      [done |].
    intros [= ->] Hne. destruct e; try done. by destruct (Hne msg).
  - intros br Hc Hd Hb. unfold load_state. rewrite Hc, Hd. by rewrite Hb.
Qed.

(** ** What the cache holds after a commit or a load *)

(** The eviction loop touches neither the registry nor the active branch,
    and it never adds an entry. *)
Lemma evict_loop_frame order : forall (s : SM),
  let s' := snd (evict_loop to_parquet order s) in
  branches s' = branches s /\ active_branch s' = active_branch s /\
  (forall k, _memory_cache s !! k = None -> _memory_cache s' !! k = None).
Proof.
  induction order as [| k rest IH]; intros s; simpl.
  - by destruct (_ <=? _)%Z.
  - destruct (_ <=? _)%Z; [| done].
    destruct (_memory_cache s !! k) as [d |] eqn:Hk; [| done].
    assert (Hdel : forall j, _memory_cache s !! j = None ->
                             delete k (_memory_cache s) !! j = None).
    { intros j Hj. destruct (decide (k = j)) as [-> | Hne].
      - apply lookup_delete_eq.
      - by rewrite lookup_delete_ne. }
    destruct (to_parquet d); [| by simpl].
    destruct (temp_dir s); [| by simpl].
    match goal with |- context [evict_loop _ rest ?s1] =>
      destruct (IH s1) as (Hb & Ha & Hc) end.
    simpl in *. repeat split; auto.
Qed.

(** When [_add_to_cache] returns, a key that was free holds the new frame
    and a key that was resident holds the frame it had. *)
Lemma add_to_cache_returns key df (s s' : SM) :
  add_to_cache key df s = (Return tt, s') ->
  branches s' = branches s /\ active_branch s' = active_branch s /\
  _memory_cache s' !! key =
    Some (default df (_memory_cache s !! key)).
Proof.
  unfold _add_to_cache, bind, _touch, modify.
  destruct (_memory_cache s !! key) as [d |] eqn:Hk.
  - intros [= <-]. by simpl.
  - destruct (evict_loop_frame (_access_order s) s) as (Hb & Ha & _).
    destruct (evict_loop to_parquet (_access_order s) s) as [[[] | e] s1];
      [| done].
    intros [= <-]. simpl in *. repeat split; auto. apply lookup_insert_eq.
Qed.

(** When [commit_state] returns, the key of the active branch and the id
    holds the committed frame if it was free, the frame it had if it was
    resident; the active branch has one more record, with the id, the
    digest and the configuration of the commit. *)
Lemma commit_returns i df c d now (s s' : SM) :
  commit i df c d now s = (Return tt, s') ->
  active_branch s' = active_branch s /\
  _memory_cache s' !! state_key (active_branch s) i =
    Some (default df (_memory_cache s !! state_key (active_branch s) i)) /\
  exists br, branches s !! active_branch s = Some br /\
    branches s' =
      <[active_branch s :=
          mkBranch (created_at br) (forked_from br)
                   (states br ++ [commit_record br i df c d now])]>
        (branches s).
Proof.
  unfold commit_state, bind, get, branch_at, modify.
  destruct (add_to_cache (state_key (active_branch s) i) df s)
    as [[[] | e] s1] eqn:Ha; [| done].
  destruct (add_to_cache_returns _ _ _ _ Ha) as (Hb & Hact & Hc).
  destruct (branches s1 !! active_branch s) as [br |] eqn:Hbr; [| done].
  intros [= <-]. simpl. repeat split; auto.
  exists br. rewrite <- Hb. by split.
Qed.

(** When [load_state] returns a frame, the cache holds it under the key. *)
Lemma load_returns b i df (s s' : SM) :
  load b i s = (Return df, s') ->
  branches s' = branches s /\ active_branch s' = active_branch s /\
  _memory_cache s' !! state_key b i = Some df.
Proof.
  unfold load_state, bind, ret, _touch, modify.
  destruct (_memory_cache s !! state_key b i) as [d |] eqn:Hk.
  - by intros [= <- <-].
  - destruct (temp_dir s ≫= _) as [bytes |]; [| done].
    destruct (read_parquet bytes) as [df' |]; [| done].
    destruct (add_to_cache (state_key b i) df' s) as [[[] | e] s1] eqn:Ha;
      [| done].
    intros [= <- <-].
    destruct (add_to_cache_returns _ _ _ _ Ha) as (Hb & Hact & Hc).
    rewrite Hk in Hc. by simpl in Hc.
Qed.

(** A cached key is loaded from the cache. *)
Lemma load_cached b i df (s : SM) :
  _memory_cache s !! state_key b i = Some df ->
  load b i s =
    (Return df,
     set_access_order
       (remove_first (state_key b i) (_access_order s) ++ [state_key b i]) s).
Proof. intros H. unfold load_state, bind, ret, _touch, modify. by rewrite H. Qed.

(** Committing onto a free key: the entry holds the committed frame. *)
Lemma commit_free_key_holds_frame i df c d now (s s' : SM) :
  _memory_cache s !! state_key (active_branch s) i = None ->
  commit i df c d now s = (Return tt, s') ->
  _memory_cache s' !! state_key (active_branch s) i = Some df.
Proof.
  intros Hfree Hc. destruct (commit_returns _ _ _ _ _ _ _ Hc) as (_ & H & _).
  by rewrite Hfree in H.
Qed.

(** Committing onto a resident key: the entry keeps its frame, whatever
    frame is committed. *)
Lemma commit_resident_key_keeps_frame i df old c d now (s s' : SM) :
  _memory_cache s !! state_key (active_branch s) i = Some old ->
  commit i df c d now s = (Return tt, s') ->
  _memory_cache s' !! state_key (active_branch s) i = Some old.
Proof.
  intros Hres Hc. destruct (commit_returns _ _ _ _ _ _ _ Hc) as (_ & H & _).
  by rewrite Hres in H.
Qed.

(** ** Forking *)

(** The fork round trip, where it holds.  If [create_branch] returns and
    the key of the new branch and the fork point is not resident with
    another frame once the source is loaded, then the new branch is
    active, its history is the single record of the fork point with the
    digest of the source frame, and its current state is the source
    frame. *)
Lemma fork_round_trip new_name i now now' df (s s1 s2 : SM) :
  load (active_branch s) i s = (Return df, s1) ->
  (forall other, _memory_cache s1 !! state_key new_name i = Some other ->
                 other = df) ->
  fork new_name i now now' s = (Return tt, s2) ->
  active_branch s2 = new_name /\
  (exists cfg summary,
     branches s2 !! new_name =
       Some (mkBranch now (Some (active_branch s, i))
               [mkStateRecord i None now' (_compute_hash df) (len_rows df)
                  (len_columns df) cfg summary])) /\
  fst (current s2) = Return (Some df).
Proof.
  intros Hload Hfree. unfold create_branch.
  unfold bind at 1. unfold get at 1. unfold bind at 1. rewrite Hload.
  unfold bind at 1, _get_config_at_state, bind at 1, branch_at at 1.
  destruct (branches s1 !! active_branch s) as [src |]; [| done].
  unfold ret at 1. unfold bind at 1, modify at 1. unfold bind at 1, modify at 1.
  set (cfg := find_config empty_config i (states src)).
  set (s1' := set_active_branch new_name _).
  intros Hc. destruct (commit_returns _ _ _ _ _ _ _ Hc) as (Ha & Hk & br & Hb & Hbs).
  subst s1'. proj. simpl in Ha, Hk, Hb, Hbs.
  rewrite lookup_insert_eq in Hb. injection Hb as <-.
  assert (Hdf : _memory_cache s2 !! state_key new_name i = Some df).
  { rewrite Hk. destruct (_memory_cache s1 !! state_key new_name i) eqn:E;
      simpl; [| done]. f_equal. by apply Hfree. }
  split; [done |]. split.
  - exists cfg, ("Forked from " +:+ active_branch s +:+ "::" +:+ i).
    rewrite Hbs. by rewrite lookup_insert_eq.
  - unfold get_current_state, bind, get, branch_at. rewrite Ha, Hbs.
    rewrite lookup_insert_eq. simpl.
    by rewrite (load_cached _ _ _ _ Hdf).
Qed.

(** ** Switching *)

Lemma switch_unknown_branch b (s : SM) :
  branches s !! b = None ->
  switch b s =
    (Raise (ValueError ("Branch '" +:+ b +:+ "' does not exist")), s).
Proof. intros H. unfold switch_branch, bind, get, raise. by rewrite H. Qed.

(** X15. On a registered branch with a record, [switch_branch] makes the branch
    active and loads its terminal state, which is what
    [get_current_state] does on the store so switched. *)
Lemma switch_known_branch b br t (s : SM) :
  branches s !! b = Some br ->
  terminal_id br = Some t ->
  switch b s = load b t (set_active_branch b s) /\
  current (set_active_branch b s) =
    (let (r, s') := switch b s in
     (match r with Return df => Return (Some df) | Raise e => Raise e end, s')).
Proof.
  intros Hb Ht.
  assert (E : switch b s = load b t (set_active_branch b s)).
  { unfold switch_branch, bind, get, modify. by rewrite Hb, Ht. }
  split; [done |]. rewrite E.
  unfold get_current_state, bind, get, branch_at, ret. proj.
  rewrite Hb, Ht. by destruct (load b t _) as [[df | e] s'].
Qed.

(** On a registered branch without a record, [switch_branch] makes the
    branch active and raises, where [get_current_state] returns [None]. *)
Lemma switch_empty_branch b br (s : SM) :
  branches s !! b = Some br ->
  states br = [] ->
  switch b s = (Raise IndexError, set_active_branch b s) /\
  current (set_active_branch b s) = (Return None, set_active_branch b s).
Proof.
  intros Hb He. unfold switch_branch, get_current_state, bind, get, modify,
    branch_at, raise, ret, terminal_id. proj. by rewrite Hb, He.
Qed.

(** ** Deleting a branch *)

Lemma delete_main_rejected (s : SM) :
  delete_branch "main" s = (Raise (ValueError "Cannot delete main branch"), s).
Proof. done. Qed.

Lemma delete_active_rejected (s : SM) :
  active_branch s <> "main" ->
  delete_branch (active_branch s) s =
    (Raise (ValueError "Cannot delete active branch"), s).
Proof.
  intros Hne. unfold delete_branch, bind, get, raise.
  destruct (String.eqb_spec (active_branch s) "main"); [done |].
  by rewrite String.eqb_refl.
Qed.

Lemma foldl_delete_lookup {V} (l : list string) : forall (m : gmap string V) k,
  foldl (fun fs name => delete name fs) m l !! k =
    if decide (k ∈ l) then None else m !! k.
Proof.
  induction l as [| x l IH]; intros m k; cbn [foldl].
  - case_decide as Hin; [by apply elem_of_nil in Hin | done].
  - rewrite IH. destruct (decide (k ∈ l)) as [Hin | Hout].
    + case_decide as Hc; [done |]. destruct Hc. by right.
    + destruct (decide (x = k)) as [-> | Hne].
      * case_decide as Hc; [apply lookup_delete_eq |]. destruct Hc. left.
      * rewrite lookup_delete_ne by done.
        case_decide as Hc; [| done].
        apply elem_of_cons in Hc as [E | Hin]; congruence.
Qed.

Lemma elem_of_keys_where {V} test (m : gmap string V) k :
  k ∈ keys_where test m <-> test k = true /\ is_Some (m !! k).
Proof.
  unfold keys_where. rewrite list_elem_of_In, filter_In, <- list_elem_of_In.
  rewrite list_elem_of_fmap. split.
  - intros [[[k' v] [-> Hkv%elem_of_map_to_list]] Ht]. eauto.
  - intros [Ht [v Hv]]. split; [| done].
    exists (k, v). split; [done |]. by apply elem_of_map_to_list.
Qed.

(** Deleting every key that passes the test: those keys are gone, the
    others are as before. *)
Lemma delete_keys_where_lookup {V} test (m : gmap string V) k :
  foldl (fun fs name => delete name fs) m (keys_where test m) !! k =
    if test k then None else m !! k.
Proof.
  rewrite foldl_delete_lookup.
  destruct (decide (k ∈ keys_where test m)) as [Hin | Hout].
  - apply elem_of_keys_where in Hin as [-> _]. done.
  - destruct (test k) eqn:Ht; [| done].
    destruct (m !! k) eqn:Hk; [| done].
    destruct Hout. apply elem_of_keys_where. eauto.
Qed.

Lemma drop_keys_fields keys : forall s : SM,
  temp_dir (foldl drop_key s keys) = temp_dir s /\
  branches (foldl drop_key s keys) = branches s /\
  active_branch (foldl drop_key s keys) = active_branch s /\
  _memory_cache (foldl drop_key s keys) =
    foldl (fun fs name => delete name fs) (_memory_cache s) keys.
Proof.
  induction keys as [| k keys IH]; intros s; simpl; [done |].
  destruct (IH (drop_key s k)) as (H1 & H2 & H3 & H4). by simpl in *.
Qed.


(** * More of the class and of its callers *)

Variable columns : DataFrame -> list string.

Local Abbreviation consistent := (@consistent DataFrame Config Parquet).
Local Abbreviation ordered := (@ordered DataFrame).
Local Abbreviation Preserves := (@Preserves DataFrame Config Parquet _).
Local Abbreviation Frames := (@Frames DataFrame Config Parquet _ _).
Local Abbreviation compare := (compare_branches to_parquet read_parquet).
Local Abbreviation report :=
  (compare_report to_parquet read_parquet len_rows columns).
Local Abbreviation rollback' :=
  (rollback to_parquet read_parquet _compute_hash len_rows len_columns
            empty_config).
Local Abbreviation app_run' :=
  (app_run to_parquet read_parquet _compute_hash len_rows len_columns
           empty_config).
Local Abbreviation app_step' :=
  (app_step to_parquet read_parquet _compute_hash len_rows len_columns
            empty_config).

(** ** Combinators for properties kept and components left alone *)

Lemma Preserves_bind {A B} P (m : Meth A) (k : A -> Meth B) :
  Preserves P m -> (forall a, Preserves P (k a)) -> Preserves P (bind m k).
Proof.
  intros Hm Hk s Hs. unfold bind. specialize (Hm s Hs).
  destruct (m s) as [[a | e] s1]; simpl in *; [| done]. by apply Hk.
Qed.

Lemma Preserves_ret {A} P (a : A) : Preserves P (ret a : Meth A).
Proof. by intros s. Qed.

Lemma Preserves_raise {A} P e : Preserves P (raise e : Meth A).
Proof. by intros s. Qed.

Lemma Preserves_get P : Preserves P (get : Meth SM).
Proof. by intros s. Qed.

Lemma Preserves_branch_at P name :
  Preserves P (branch_at name : Meth (Branch Config)).
Proof. intros s H. unfold branch_at. by destruct (branches s !! name). Qed.

Lemma Frames_bind {A B C} (f : SM -> C) (m : Meth A) (k : A -> Meth B) :
  Frames f m -> (forall a, Frames f (k a)) -> Frames f (bind m k).
Proof.
  intros Hm Hk s. unfold bind. specialize (Hm s).
  destruct (m s) as [[a | e] s1]; simpl in *; [| done].
  by rewrite Hk.
Qed.

Lemma Frames_ret {A C} (f : SM -> C) (a : A) : Frames f (ret a : Meth A).
Proof. by intros s. Qed.

Lemma Frames_raise {A C} (f : SM -> C) e : Frames f (raise e : Meth A).
Proof. by intros s. Qed.

Lemma Frames_get {C} (f : SM -> C) : Frames f (get : Meth SM).
Proof. by intros s. Qed.

Lemma Frames_branch_at {C} (f : SM -> C) name :
  Frames f (branch_at name : Meth (Branch Config)).
Proof. intros s. unfold branch_at. by destruct (branches s !! name). Qed.

(** ** Methods that read: the registry is left alone *)

Lemma evict_loop_registry order (s : SM) :
  branches (snd (evict_loop to_parquet order s)) = branches s /\
  active_branch (snd (evict_loop to_parquet order s)) = active_branch s.
Proof. destruct (evict_loop_frame order s) as (Hb & Ha & _). by split. Qed.

Lemma add_to_cache_registry key df (s : SM) :
  branches (snd (add_to_cache key df s)) = branches s /\
  active_branch (snd (add_to_cache key df s)) = active_branch s.
Proof.
  unfold _add_to_cache, bind, _touch, modify.
  destruct (_memory_cache s !! key); [done |].
  destruct (evict_loop_registry (_access_order s) s) as [Hb Ha].
  by destruct (evict_loop to_parquet (_access_order s) s) as [[[] | e] s1].
Qed.

Lemma load_registry b i (s : SM) :
  branches (snd (load b i s)) = branches s /\
  active_branch (snd (load b i s)) = active_branch s.
Proof.
  unfold load_state, bind, ret, _touch, modify.
  destruct (_memory_cache s !! state_key b i); [done |].
  destruct (temp_dir s ≫= _) as [bytes |]; [| done].
  destruct (read_parquet bytes) as [df |]; [| done].
  destruct (add_to_cache_registry (state_key b i) df s) as [Hb Ha].
  by destruct (add_to_cache (state_key b i) df s) as [[[] | e] s1].
Qed.

Lemma Frames_load_branches b i : Frames branches (load b i).
Proof. intros s. apply load_registry. Qed.

Lemma Frames_load_active b i : Frames active_branch (load b i).
Proof. intros s. apply load_registry. Qed.

Ltac frames_step :=
  first [ apply Frames_bind; [| intros ?]
        | apply Frames_ret | apply Frames_raise | apply Frames_get
        | apply Frames_branch_at
        | apply Frames_load_branches | apply Frames_load_active ].

Lemma export_raw_registry (s : SM) :
  branches (snd (export_raw to_parquet read_parquet s)) = branches s /\
  active_branch (snd (export_raw to_parquet read_parquet s)) = active_branch s.
Proof.
  unfold export_raw. pose proof (load_registry "main" "df_raw" s) as H.
  destruct (load "main" "df_raw" s) as [[df | e] s']; simpl in *.
  - by destruct (to_parquet df).
  - by destruct e.
Qed.

Lemma current_registry (s : SM) :
  branches (snd (current s)) = branches s /\
  active_branch (snd (current s)) = active_branch s.
Proof.
  assert (Frames branches current /\ Frames active_branch current) as [H1 H2].
  { split; unfold get_current_state; repeat frames_step;
      destruct (terminal_id _); repeat frames_step. }
  split; [apply H1 | apply H2].
Qed.

Lemma compare_registry a b i (s : SM) :
  branches (snd (compare a b i s)) = branches s /\
  active_branch (snd (compare a b i s)) = active_branch s.
Proof.
  assert (Frames branches (compare a b i) /\
          Frames active_branch (compare a b i)) as [H1 H2].
  { split; unfold compare_branches; repeat frames_step. }
  split; [apply H1 | apply H2].
Qed.

Lemma export_registry (s : SM) :
  branches (snd (export s)) = branches s /\
  active_branch (snd (export s)) = active_branch s.
Proof.
  unfold export_pipeline, bind, get, branch_at, ret.
  destruct (export_raw_registry s) as [Hb Ha].
  destruct (export_raw to_parquet read_parquet s) as [[raw | e] s1];
    simpl in *; [| done].
  by destruct (branches s1 !! active_branch s1).
Qed.

(** X10. The methods that read never touch the registry: whatever
    [load_state], [get_current_state], [compare_branches] and
    [export_pipeline] return or raise, every branch has the records it had
    and the active branch is the one it was; [get_current_state_id],
    [get_branch_summary] and [get_state_history] leave the whole store as
    it is. *)
Theorem reading_leaves_registry (s : SM) (b b' i : string)
    (h : option string) :
  let untouched (s' : SM) :=
    branches s' = branches s /\ active_branch s' = active_branch s in
  untouched (snd (load b i s)) /\
  untouched (snd (current s)) /\
  untouched (snd (report b b' i s)) /\
  untouched (snd (export s)) /\
  snd (get_current_state_id s) = s /\
  snd (get_branch_summary b s) = s /\
  snd (get_state_history h s) = s.
Proof.
  cbv zeta. split; [apply load_registry |].
  split; [apply current_registry |]. split.
  { unfold compare_report, bind, ret.
    pose proof (compare_registry b b' i s) as H.
    by destruct (compare b b' i s) as [[dfs | e] s1]. }
  split; [apply export_registry |]. split.
  { unfold get_current_state_id, bind, get, branch_at, ret.
    by destruct (branches s !! active_branch s). }
  split.
  { unfold get_branch_summary, bind, branch_at, ret.
    destruct (branches s !! b) as [br |]; [| done].
    by destruct (last (states br)). }
  unfold get_state_history, bind, get, branch_at, ret.
  by destruct (branches s !! _).
Qed.

(** ** The recency list and the cache agree *)

Lemma elem_of_remove_first k x (l : list string) :
  x ∈ remove_first k l -> x ∈ l.
Proof.
  induction l as [| y l IH]; simpl; [done |].
  destruct (String.eqb_spec y k); [by right |].
  intros [-> | H]%elem_of_cons; [left | right; auto].
Qed.

Lemma elem_of_remove_first_NoDup k x (l : list string) :
  NoDup l -> (x ∈ remove_first k l <-> x ∈ l /\ x <> k).
Proof.
  induction l as [| y l IH]; simpl; intros Hnd.
  - split; [by intros ?%elem_of_nil | by intros [?%elem_of_nil _]].
  - apply NoDup_cons in Hnd as [Hy Hnd].
    destruct (String.eqb_spec y k) as [-> | Hne].
    + split.
      * intros Hx. split; [by right | by intros ->].
      * intros [[-> | Hx]%elem_of_cons Hxk]; done.
    + rewrite !elem_of_cons, (IH Hnd). split.
      * intros [-> | [Hx Hxk]]; [by split; [left |] | by split; [right |]].
      * intros [[-> | Hx] Hxk]; [by left | by right].
Qed.

Lemma NoDup_remove_first k (l : list string) :
  NoDup l -> NoDup (remove_first k l).
Proof.
  induction l as [| y l IH]; simpl; [done |].
  intros [Hy Hnd]%NoDup_cons. destruct (String.eqb_spec y k); [done |].
  apply NoDup_cons. split; [| auto].
  intros H. by apply elem_of_remove_first in H.
Qed.

Lemma ordered_touch key order cache :
  ordered order cache -> is_Some (cache !! key) ->
  ordered (remove_first key order ++ [key]) cache.
Proof.
  intros [Hnd Hm] Hk. split.
  - apply NoDup_app. split; [by apply NoDup_remove_first |]. split.
    + intros x Hx ->%list_elem_of_singleton.
      apply elem_of_remove_first_NoDup in Hx as [_ Hx]; done.
    + apply NoDup_singleton.
  - intros k. rewrite elem_of_app, list_elem_of_singleton.
    rewrite elem_of_remove_first_NoDup by done. rewrite Hm. split.
    + intros [[H _] | ->]; done.
    + intros H. destruct (decide (k = key)); [by right | by left].
Qed.

Lemma ordered_pop k rest cache :
  ordered (k :: rest) cache -> ordered rest (delete k cache).
Proof.
  intros [[Hk Hnd]%NoDup_cons Hm]. split; [done |].
  intros j. destruct (decide (k = j)) as [<- | Hne].
  - rewrite lookup_delete_eq. split; [done | by intros [? ?]].
  - rewrite lookup_delete_ne by done. rewrite <- Hm, elem_of_cons.
    split; [by right | by intros [-> | ?]].
Qed.

Lemma ordered_push key df order cache :
  ordered order cache -> cache !! key = None ->
  ordered (order ++ [key]) (<[key := df]> cache).
Proof.
  intros [Hnd Hm] Hk. split.
  - apply NoDup_app. split; [done |]. split; [| apply NoDup_singleton].
    intros x Hx ->%list_elem_of_singleton. apply Hm in Hx as [? ?]. congruence.
  - intros j. rewrite elem_of_app, list_elem_of_singleton.
    destruct (decide (key = j)) as [<- | Hne].
    + rewrite lookup_insert_eq. split; [by eauto | by right].
    + rewrite lookup_insert_ne by done. rewrite Hm.
      split; [by intros [? | ->] | by left].
Qed.

Lemma ordered_drop key order cache :
  ordered order cache ->
  ordered (remove_first key order) (delete key cache).
Proof.
  intros [Hnd Hm]. split; [by apply NoDup_remove_first |].
  intros j. rewrite elem_of_remove_first_NoDup by done.
  destruct (decide (key = j)) as [<- | Hne].
  - rewrite lookup_delete_eq. split; [by intros [_ ?] | by intros [? ?]].
  - rewrite lookup_delete_ne by done. rewrite Hm.
    split; [by intros [? _] | by split].
Qed.

Lemma ordered_nil_empty (cache : gmap string DataFrame) :
  ordered [] cache -> cache = ∅.
Proof.
  intros [_ Hm]. apply map_empty. intros k.
  destruct (cache !! k) eqn:E; [| done].
  assert (k ∈ @nil string) as ?%elem_of_nil by (apply Hm; eauto). done.
Qed.

(** On a store whose recency list and cache agree, the eviction loop keeps
    them in agreement, never raises [KeyError], and raises [IndexError]
    only for a capacity below 1. *)
Lemma evict_loop_ordered order : forall s : SM,
  _access_order s = order ->
  ordered order (_memory_cache s) ->
  let r := evict_loop to_parquet order s in
  ordered (_access_order (snd r)) (_memory_cache (snd r)) /\
  (forall k, fst r <> Raise (KeyError k)) /\
  (fst r = Raise IndexError -> (cache_size s <= 0)%Z).
Proof.
  induction order as [| k rest IH]; intros s Ho Hord; simpl.
  - destruct (Z.leb_spec (cache_size s) (Z.of_nat (size (_memory_cache s))))
      as [Hle | Hlt]; simpl; rewrite ?Ho;
      (split; [exact Hord | split; [done |]]); [| done].
    intros _. rewrite (ordered_nil_empty _ Hord), map_size_empty in Hle. lia.
  - destruct (Z.leb_spec (cache_size s) (Z.of_nat (size (_memory_cache s))))
      as [Hle | Hlt]; simpl; rewrite ?Ho;
      [| split; [exact Hord | split; done]].
    assert (is_Some (_memory_cache s !! k)) as [d Hd].
    { apply Hord. left. }
    rewrite Hd. pose proof (ordered_pop _ _ _ Hord) as Hpop.
    destruct (to_parquet d) as [bytes |];
      [| split; [exact Hpop | split; done]].
    destruct (temp_dir s) as [files |];
      [| split; [exact Hpop | split; done]].
    match goal with |- context [evict_loop _ rest ?s1] =>
      destruct (IH s1 eq_refl Hpop) as (H1 & H2 & H3) end.
    split; [exact H1 | split; [exact H2 | exact H3]].
Qed.

Lemma add_to_cache_ordered key df (s : SM) :
  ordered (_access_order s) (_memory_cache s) ->
  let r := add_to_cache key df s in
  ordered (_access_order (snd r)) (_memory_cache (snd r)) /\
  (forall k, fst r <> Raise (KeyError k)) /\
  (fst r = Raise IndexError -> (cache_size s <= 0)%Z).
Proof.
  intros Hord. unfold _add_to_cache, bind, _touch, modify.
  destruct (_memory_cache s !! key) as [d |] eqn:Hk; simpl.
  - split; [apply ordered_touch; eauto | split; done].
  - destruct (evict_loop_ordered _ s eq_refl Hord) as (H1 & H2 & H3).
    destruct (evict_loop_frame (_access_order s) s) as (_ & _ & Hnone).
    destruct (evict_loop to_parquet (_access_order s) s) as [[[] | e] s1];
      simpl in *; [| split; [exact H1 | split; [exact H2 | exact H3]]].
    split; [apply ordered_push; auto | split; done].
Qed.

Lemma Preserves_consistent_add key df :
  Preserves consistent (add_to_cache key df).
Proof.
  intros s [Hord Hact].
  destruct (add_to_cache_ordered key df s Hord) as (H & _).
  destruct (add_to_cache_registry key df s) as [Hb Ha].
  split; [done |]. by rewrite Ha, Hb.
Qed.

Lemma Preserves_consistent_load b i : Preserves consistent (load b i).
Proof.
  intros s Hc. unfold load_state, bind, ret, _touch, modify.
  destruct (_memory_cache s !! state_key b i) as [d |] eqn:Hk; simpl.
  - destruct Hc as [Hord Hact]. split; [| done].
    apply ordered_touch; eauto.
  - destruct (temp_dir s ≫= _) as [bytes |]; [| done].
    destruct (read_parquet bytes) as [df |]; [| done].
    pose proof (Preserves_consistent_add (state_key b i) df s Hc) as H.
    by destruct (add_to_cache (state_key b i) df s) as [[[] | e] s1].
Qed.

Lemma Preserves_consistent_commit i df c d now :
  Preserves consistent (commit i df c d now).
Proof.
  intros s Hc. unfold commit_state, bind, get, branch_at, modify.
  pose proof (Preserves_consistent_add (state_key (active_branch s) i) df s Hc)
    as H.
  destruct (add_to_cache_registry (state_key (active_branch s) i) df s)
    as [Hb Ha].
  destruct (add_to_cache (state_key (active_branch s) i) df s)
    as [[[] | e] s1]; simpl in *; [| done].
  destruct (branches s1 !! active_branch s) as [br |]; [| done].
  simpl. destruct H as [Hord _]. split; [done |]. simpl.
  rewrite Ha, lookup_insert_eq. eauto.
Qed.

Lemma Preserves_consistent_current : Preserves consistent current.
Proof.
  unfold get_current_state.
  apply Preserves_bind; [apply Preserves_get | intros s0].
  apply Preserves_bind; [apply Preserves_branch_at | intros br].
  destruct (terminal_id br); [| apply Preserves_ret].
  apply Preserves_bind; [apply Preserves_consistent_load | intros df].
  apply Preserves_ret.
Qed.

Lemma Preserves_consistent_fork n f now now' :
  Preserves consistent (fork n f now now').
Proof.
  intros s Hc. unfold create_branch.
  unfold bind at 1. unfold get at 1. unfold bind at 1.
  pose proof (Preserves_consistent_load (active_branch s) f s Hc) as Hl.
  destruct (load (active_branch s) f s) as [[df | e] s1]; simpl in Hl;
    [| done].
  unfold bind at 1, _get_config_at_state, bind at 1, branch_at at 1.
  destruct (branches s1 !! active_branch s) as [src |]; [| done].
  unfold ret at 1. unfold bind at 1, modify at 1. unfold bind at 1, modify at 1.
  apply Preserves_consistent_commit.
  destruct Hl as [Hord _]. split; [done |]. simpl.
  rewrite lookup_insert_eq. eauto.
Qed.

Lemma Preserves_consistent_switch b : Preserves consistent (switch b).
Proof.
  intros s Hc. unfold switch_branch, bind, get, modify, raise.
  destruct (branches s !! b) as [br |] eqn:Hb; [| done].
  destruct (terminal_id br) as [t |].
  - apply Preserves_consistent_load. destruct Hc as [Hord _].
    split; [done |]. simpl. eauto.
  - simpl. destruct Hc as [Hord _]. split; [done |]. simpl. eauto.
Qed.

Lemma drop_keys_ordered keys : forall s : SM,
  ordered (_access_order s) (_memory_cache s) ->
  ordered (_access_order (foldl drop_key s keys))
          (_memory_cache (foldl drop_key s keys)).
Proof.
  induction keys as [| k keys IH]; intros s Hord; simpl; [done |].
  apply IH. simpl. by apply ordered_drop.
Qed.

Lemma Preserves_consistent_delete b :
  Preserves consistent (delete_branch b : Meth unit).
Proof.
  intros s [Hord Hact]. unfold delete_branch, bind, get, modify, raise.
  destruct (String.eqb_spec b "main"); [done |].
  destruct (String.eqb_spec b (active_branch s)) as [| Hne]; [done |].
  set (keys := keys_where _ (_memory_cache s)).
  destruct (drop_keys_fields keys s) as (Hd & Hb & Ha & Hc).
  pose proof (drop_keys_ordered keys s Hord) as Hord'.
  proj. rewrite Hb.
  destruct (branches s !! b); simpl.
  - split; [done |]. simpl. rewrite Ha.
    by rewrite lookup_delete_ne.
  - split; [done |]. simpl. by rewrite Ha, Hb.
Qed.

Lemma Preserves_consistent_compare a b i :
  Preserves consistent (compare a b i).
Proof.
  unfold compare_branches.
  apply Preserves_bind; [apply Preserves_consistent_load | intros ?].
  apply Preserves_bind; [apply Preserves_consistent_load | intros ?].
  apply Preserves_ret.
Qed.

Lemma Preserves_consistent_export : Preserves consistent export.
Proof.
  intros s Hc. unfold export_pipeline, bind, get, branch_at, ret, export_raw.
  pose proof (Preserves_consistent_load "main" "df_raw" s Hc) as H.
  destruct (load "main" "df_raw" s) as [[df | e] s1]; simpl in H.
  - destruct (to_parquet df); [| done].
    by destruct (branches s1 !! active_branch s1).
  - destruct e; try done. by destruct (branches s1 !! active_branch s1).
Qed.

Lemma consistent_init n pre now : consistent (init n pre now).
Proof.
  split; [split |]; simpl.
  - apply NoDup_nil_2.
  - intros k. rewrite lookup_empty. split; [by intros ?%elem_of_nil |].
    by intros [? ?].
  - rewrite lookup_singleton_eq. eauto.
Qed.

Lemma consistent_step o (s : SM) : consistent s -> consistent (step' s o).
Proof.
  intros Hc. destruct o; simpl.
  - by apply Preserves_consistent_commit.
  - by apply Preserves_consistent_load.
  - by apply Preserves_consistent_current.
  - by apply Preserves_consistent_fork.
  - by apply Preserves_consistent_switch.
  - by apply Preserves_consistent_delete.
  - by apply Preserves_consistent_compare.
  - by apply Preserves_consistent_export.
  - destruct Hc as [_ Hact]. split; [| done]. simpl. split.
    + apply NoDup_nil_2.
    + intros k. rewrite lookup_empty. split; [by intros ?%elem_of_nil |].
      by intros [? ?].
  - exact (consistent_init (cache_size s) None now).
Qed.

Lemma run_consistent n pre now ops : consistent (run' (init n pre now) ops).
Proof.
  generalize (consistent_init n pre now).
  generalize (init n pre now : SM). unfold run.
  induction ops as [| o ops IH]; intros s Hc; simpl; [done |].
  apply IH. by apply consistent_step.
Qed.

(** X1. In every store reached from [__init__] by public operations, whatever
    they returned or raised, the recency list has no duplicate and lists
    exactly the keys of the cache, and the active branch is in the
    registry. *)
Theorem reachable_store_consistent
    (n : Z) (pre : option (gmap string Parquet)) (now : string)
    (ops : list (op DataFrame Config)) :
  let s := run' (init n pre now) ops in
  NoDup (_access_order s) /\
  (forall k, k ∈ _access_order s <-> is_Some (_memory_cache s !! k)) /\
  is_Some (branches s !! active_branch s).
Proof.
  cbv zeta. destruct (run_consistent n pre now ops) as [[H1 H2] H3]. split; [exact H1 | split; [exact H2 | exact H3]].
Qed.

(** ** What [commit_state] can raise *)

Lemma commit_when_add_raises i df c d now e (s s1 : SM) :
  add_to_cache (state_key (active_branch s) i) df s = (Raise e, s1) ->
  commit i df c d now s = (Raise e, s1).
Proof. intros H. unfold commit_state, bind, get. by rewrite H. Qed.

(** The exceptions of the eviction loop are its own four. *)
Lemma evict_loop_errors order : forall (s : SM) e,
  fst (evict_loop to_parquet order s) = Raise e ->
  e = IndexError \/ (exists k, e = KeyError k) \/ e = ParquetError \/
  exists path, e = FileNotFoundError path.
Proof.
  induction order as [| k rest IH]; intros s e; simpl.
  - destruct (_ <=? _)%Z; simpl; [| done]. intros [= <-]. by left.
  - destruct (_ <=? _)%Z; simpl; [| done].
    destruct (_memory_cache s !! k) as [d |]; simpl;
      [| intros [= <-]; right; left; eauto].
    destruct (to_parquet d); simpl; [| intros [= <-]; right; right; by left].
    destruct (temp_dir s); simpl;
      [| intros [= <-]; right; right; right; eauto].
    apply IH.
Qed.

(** With a capacity of at least 1, a directory in place and every cached
    frame encodable, the loop returns, and the directory is still there. *)
Lemma evict_loop_returns order : forall s : SM,
  _access_order s = order ->
  ordered order (_memory_cache s) ->
  (1 <= cache_size s)%Z ->
  is_Some (temp_dir s) ->
  (forall k d, _memory_cache s !! k = Some d -> is_Some (to_parquet d)) ->
  fst (evict_loop to_parquet order s) = Return tt.
Proof.
  induction order as [| k rest IH]; intros s Ho Hord Hcap Hdir Henc; simpl.
  - destruct (Z.leb_spec (cache_size s) (Z.of_nat (size (_memory_cache s))))
      as [Hle | Hlt]; [| done].
    rewrite (ordered_nil_empty _ Hord), map_size_empty in Hle. lia.
  - destruct (Z.leb_spec (cache_size s) (Z.of_nat (size (_memory_cache s))))
      as [Hle | Hlt]; [| done].
    assert (is_Some (_memory_cache s !! k)) as [d Hd].
    { apply Hord. left. }
    rewrite Hd. simpl. destruct (Henc k d Hd) as [bytes ->].
    destruct Hdir as [files ->]. apply IH; simpl; auto.
    + by apply ordered_pop.
    + intros j dj Hj. apply (Henc j).
      destruct (decide (k = j)) as [<- | Hne].
      * by rewrite lookup_delete_eq in Hj.
      * by rewrite lookup_delete_ne in Hj.
Qed.

(** X3. On a consistent store of capacity at least 1, [commit_state] returns
    or raises a codec error or [FileNotFoundError], nothing else: no
    [IndexError] or [KeyError] escapes from the cache or the registry.  If
    moreover the directory exists and every cached frame can be encoded,
    it returns. *)
Theorem commit_on_consistent_store
    (s : SM) (i : string) (df : DataFrame) (c : Config) (d now : string) :
  consistent s -> (1 <= cache_size s)%Z ->
  let r := fst (commit i df c d now s) in
  (r = Return tt \/ r = Raise ParquetError \/
   exists path, r = Raise (FileNotFoundError path)) /\
  (is_Some (temp_dir s) ->
   (forall k f, _memory_cache s !! k = Some f -> is_Some (to_parquet f)) ->
   r = Return tt).
Proof.
  intros [Hord Hact] Hcap. cbv zeta.
  unfold commit_state, bind, get, branch_at, modify.
  destruct (add_to_cache_registry (state_key (active_branch s) i) df s)
    as [Hb Ha].
  unfold _add_to_cache, bind, _touch, modify in *.
  destruct (_memory_cache s !! state_key (active_branch s) i) as [old |].
  - simpl in *. destruct Hact as [br ->]. simpl. split; [by left | done].
  - destruct (evict_loop_ordered _ s eq_refl Hord) as (_ & Hkey & Hidx).
    pose proof (evict_loop_errors (_access_order s) s) as Herr.
    pose proof (evict_loop_returns _ s eq_refl Hord Hcap) as Hret.
    destruct (evict_loop to_parquet (_access_order s) s) as [[[] | e] s1];
      simpl in *.
    + rewrite Hb. destruct Hact as [br ->]. simpl. split; [by left | done].
    + split.
      * destruct (Herr e eq_refl) as [-> | [[k ->] | [-> | [path ->]]]].
        -- specialize (Hidx eq_refl). lia.
        -- by destruct (Hkey k).
        -- right. by left.
        -- right. right. eauto.
      * intros Hdir Henc. by specialize (Hret Hdir Henc).
Qed.

(** X4. A store of capacity 0 or less admits nothing: [commit_state] under a
    key that is not cached raises, appends no record and leaves the key
    out of the cache. *)
Theorem commit_without_capacity_raises
    (s : SM) (i : string) (df : DataFrame) (c : Config) (d now : string) :
  (cache_size s <= 0)%Z ->
  _memory_cache s !! state_key (active_branch s) i = None ->
  let r := commit i df c d now s in
  (exists e, fst r = Raise e) /\
  branches (snd r) = branches s /\
  _memory_cache (snd r) !! state_key (active_branch s) i = None.
Proof.
  intros Hcap Hk. cbv zeta.
  destruct (evict_loop_spec (_access_order s) s) as (_ & _ & Hroom).
  destruct (evict_loop_frame (_access_order s) s) as (Hb & _ & Hnone).
  destruct (evict_loop to_parquet (_access_order s) s) as [[[] | e] s1] eqn:E;
    simpl in *.
  - specialize (Hroom eq_refl). lia.
  - rewrite (commit_when_add_raises i df c d now e s s1).
    + split; [by eauto |]. split; [done | by apply Hnone].
    + unfold _add_to_cache, bind. by rewrite Hk, E.
Qed.

(** X8. After [cleanup] the directory is gone, and the store loses data on its
    next eviction: when the cache is full, [commit_state] under a new key
    pops the least recently used frame, fails to write it and raises
    [FileNotFoundError]; that frame is then neither cached nor on disk,
    and the commit has added neither its frame nor its record. *)
Theorem eviction_without_directory_loses_frame
    (s : SM) (i : string) (df : DataFrame) (c : Config) (d now : string)
    (k : string) (rest : list string) (old : DataFrame) (bytes : Parquet) :
  temp_dir s = None ->
  (cache_size s <= Z.of_nat (size (_memory_cache s)))%Z ->
  _access_order s = k :: rest ->
  _memory_cache s !! k = Some old ->
  to_parquet old = Some bytes ->
  _memory_cache s !! state_key (active_branch s) i = None ->
  let r := commit i df c d now s in
  fst r = Raise (FileNotFoundError (disk_path k)) /\
  _memory_cache (snd r) !! k = None /\
  temp_dir (snd r) = None /\
  _memory_cache (snd r) !! state_key (active_branch s) i = None /\
  branches (snd r) = branches s.
Proof.
  intros Hdir Hfull Ho Hk Hp Hnew. cbv zeta.
  rewrite (commit_when_add_raises i df c d now
             (FileNotFoundError (disk_path k)) s
             (set_memory_cache (delete k (_memory_cache s))
                (set_access_order rest s))).
  - simpl. split; [done |]. split; [apply lookup_delete_eq |].
    split; [done |]. split; [| done].
    destruct (decide (k = state_key (active_branch s) i)) as [<- | Hne].
    + apply lookup_delete_eq.
    + by rewrite lookup_delete_ne.
  - unfold _add_to_cache, bind. rewrite Hnew, Ho. simpl.
    destruct (Z.leb_spec (cache_size s) (Z.of_nat (size (_memory_cache s))));
      [| lia].
    by rewrite Hk, Hp, Hdir.
Qed.

(** ** Least recently used *)

(** X5. When the cache holds exactly [cache_size] frames, [commit_state] under
    a new key evicts one frame, the least recently used: the head of the
    recency list leaves the cache and is written to its file, every other
    entry stays, and the new key is the most recent. *)
Theorem full_cache_evicts_least_recent
    (s : SM) (i : string) (df : DataFrame) (c : Config) (d now : string)
    (k : string) (rest : list string) (old : DataFrame) (bytes : Parquet)
    (files : gmap string Parquet) (br : Branch Config) :
  let key := state_key (active_branch s) i in
  _memory_cache s !! key = None ->
  _access_order s = k :: rest ->
  cache_size s = Z.of_nat (size (_memory_cache s)) ->
  _memory_cache s !! k = Some old ->
  to_parquet old = Some bytes ->
  temp_dir s = Some files ->
  branches s !! active_branch s = Some br ->
  let r := commit i df c d now s in
  fst r = Return tt /\
  _memory_cache (snd r) = <[key := df]> (delete k (_memory_cache s)) /\
  temp_dir (snd r) = Some (<[disk_path k := bytes]> files) /\
  _access_order (snd r) = (rest ++ [key])%list.
Proof.
  intros key Hnew Ho Hfull Hk Hp Hd Hb. cbv zeta.
  pose proof (add_to_cache_evict_one key df k rest old bytes files s
                Hnew Ho Hfull Hk Hp Hd) as Ha.
  by rewrite (commit_after_add i df c d now br s _ Ha Hb).
Qed.

(** X6. A state that [load_state] returns is the most recently used one: its
    key is last in the recency list, and on a consistent store it is first
    there, next to be evicted, only when it is the sole entry. *)
Theorem loaded_state_is_most_recent
    (s s' : SM) (b i : string) (df : DataFrame) :
  consistent s ->
  load b i s = (Return df, s') ->
  last (_access_order s') = Some (state_key b i) /\
  (head (_access_order s') = Some (state_key b i) ->
   _access_order s' = [state_key b i]).
Proof.
  intros Hc Hl.
  assert (Hlast : last (_access_order s') = Some (state_key b i)).
  { revert Hl. unfold load_state, bind, ret, _touch, modify.
    destruct (_memory_cache s !! state_key b i) as [d |] eqn:Hk.
    - intros [= <- <-]. simpl. apply last_snoc.
    - destruct (temp_dir s ≫= _) as [bytes |]; [| done].
      destruct (read_parquet bytes) as [df' |]; [| done].
      unfold _add_to_cache, bind, modify. rewrite Hk.
      destruct (evict_loop to_parquet (_access_order s) s)
        as [[[] | e] s1]; [| done].
      intros [= <- <-]. simpl. apply last_snoc. }
  split; [done |].
  pose proof (Preserves_consistent_load b i s Hc) as Hc'.
  rewrite Hl in Hc'. simpl in Hc'. destruct Hc' as [[Hnd _] _].
  destruct (_access_order s') as [| x [| y t]]; simpl; [done | by intros [= ->] |].
  intros [= ->]. apply NoDup_cons in Hnd as [Hnot _]. destruct Hnot.
  change (last (state_key b i :: y :: t)) with (last (y :: t)) in Hlast.
  by apply last_Some_elem_of in Hlast.
Qed.

(** X7. A frame that was written out comes back: on a consistent store of
    capacity at least 1 whose cached frames can be encoded, [load_state]
    of a key that is not cached but whose file decodes to [df] returns
    [df] and caches it under the key. *)
Theorem load_from_disk_returns
    (s : SM) (b i : string) (files : gmap string Parquet) (bytes : Parquet)
    (df : DataFrame) :
  consistent s -> (1 <= cache_size s)%Z ->
  _memory_cache s !! state_key b i = None ->
  temp_dir s = Some files ->
  files !! disk_path (state_key b i) = Some bytes ->
  read_parquet bytes = Some df ->
  (forall k f, _memory_cache s !! k = Some f -> is_Some (to_parquet f)) ->
  fst (load b i s) = Return df /\
  _memory_cache (snd (load b i s)) !! state_key b i = Some df.
Proof.
  intros [Hord _] Hcap Hk Hd Hf Hr Henc.
  assert (Hret : fst (evict_loop to_parquet (_access_order s) s) = Return tt).
  { apply evict_loop_returns; auto; rewrite ?Hd; eauto. }
  destruct (evict_loop to_parquet (_access_order s) s) as [o s1] eqn:E.
  simpl in Hret. subst o.
  assert (Hl : load b i s =
    (Return df,
     set_access_order (_access_order s1 ++ [state_key b i])
       (set_memory_cache (<[state_key b i := df]> (_memory_cache s1)) s1))).
  { apply (load_from_disk _ _ bytes); auto.
    - rewrite Hd. simpl. done.
    - unfold _add_to_cache, bind, modify. by rewrite Hk, E. }
  rewrite Hl. simpl. split; [done | apply lookup_insert_eq].
Qed.

(** ** Histories *)

(** X11. [commit_state] writes to the active branch only, and only at its end:
    whatever it returns or raises, every other branch is as it was, the
    active branch is the same, and the records the active branch had are
    a prefix of the ones it has. *)
Theorem commit_touches_only_active_branch
    (s : SM) (i : string) (df : DataFrame) (c : Config) (d now : string) :
  let s' := snd (commit i df c d now s) in
  active_branch s' = active_branch s /\
  (forall name, name <> active_branch s ->
     branches s' !! name = branches s !! name) /\
  (forall br, branches s !! active_branch s = Some br ->
     exists br', branches s' !! active_branch s = Some br' /\
       states br `prefix_of` states br').
Proof.
  cbv zeta. unfold commit_state, bind, get, branch_at, modify.
  destruct (add_to_cache_registry (state_key (active_branch s) i) df s)
    as [Hb Ha].
  destruct (add_to_cache (state_key (active_branch s) i) df s)
    as [[[] | e] s1]; simpl in *.
  - destruct (branches s1 !! active_branch s) as [br0 |] eqn:E; simpl.
    + split; [done |]. split.
      * intros name Hne. by rewrite lookup_insert_ne, Hb.
      * intros br Hbr. rewrite Hb, Hbr in E. injection E as <-.
        rewrite lookup_insert_eq. eexists. split; [done |].
        simpl. by apply prefix_app_r.
    + split; [done |]. split; [by intros; rewrite Hb |].
      intros br Hbr. rewrite Hb in E. congruence.
  - split; [done |]. split; [by intros; rewrite Hb |].
    intros br Hbr. rewrite Hb. eauto.
Qed.

(** X13. When [create_branch] returns, the named branch holds exactly one
    record, the fork point with no parent, whatever the registry held
    under that name before; it is the active branch, and every other
    branch is as it was. *)
Theorem fork_starts_new_history
    (s s' : SM) (new_name i now now' : string) :
  fork new_name i now now' s = (Return tt, s') ->
  active_branch s' = new_name /\
  (exists df cfg summary,
     branches s' !! new_name =
       Some (mkBranch now (Some (active_branch s, i))
               [mkStateRecord i None now' (_compute_hash df) (len_rows df)
                  (len_columns df) cfg summary])) /\
  (forall name, name <> new_name ->
     branches s' !! name = branches s !! name).
Proof.
  unfold create_branch.
  unfold bind at 1. unfold get at 1. unfold bind at 1.
  destruct (load_registry (active_branch s) i s) as [Hlb Hla].
  destruct (load (active_branch s) i s) as [[df | e] s1]; [| done].
  simpl in Hlb, Hla.
  unfold bind at 1, _get_config_at_state, bind at 1, branch_at at 1.
  destruct (branches s1 !! active_branch s) as [src |]; [| done].
  unfold ret at 1. unfold bind at 1, modify at 1. unfold bind at 1, modify at 1.
  intros Hc.
  destruct (commit_returns _ _ _ _ _ _ _ Hc) as (Ha & _ & br & Hb & Hbs).
  simpl in Ha, Hb, Hbs. rewrite lookup_insert_eq in Hb. injection Hb as <-.
  split; [done |]. split.
  - exists df. eexists. eexists. rewrite Hbs. by rewrite lookup_insert_eq.
  - intros name Hne. rewrite Hbs, !lookup_insert_ne by done. by rewrite Hlb.
Qed.

Local Abbreviation all_linked := (@all_linked DataFrame Config Parquet).

Lemma linked_from_snoc p (l : list (StateRecord Config)) r :
  linked_from p l = true ->
  parent r = match last l with Some x => Some (id x) | None => p end ->
  linked_from p (l ++ [r]) = true.
Proof.
  revert p. induction l as [| x l IH]; intros p Hl Hp; simpl in *.
  - rewrite Hp. by rewrite bool_decide_eq_true_2.
  - apply andb_true_iff in Hl as [Hx Hl]. rewrite Hx. simpl.
    apply IH; [done |]. rewrite Hp, last_cons. by destruct (last l).
Qed.

Lemma all_linked_same (s s' : SM) :
  branches s' = branches s -> all_linked s -> all_linked s'.
Proof. intros E H name b. rewrite E. apply H. Qed.

Lemma Preserves_linked_commit i df c d now :
  Preserves all_linked (commit i df c d now).
Proof.
  intros s Hl. unfold commit_state, bind, get, branch_at, modify.
  destruct (add_to_cache_registry (state_key (active_branch s) i) df s)
    as [Hb Ha].
  destruct (add_to_cache (state_key (active_branch s) i) df s)
    as [[[] | e] s1]; simpl in *; [| by apply (all_linked_same s)].
  destruct (branches s1 !! active_branch s) as [br |] eqn:E; simpl;
    [| by apply (all_linked_same s)].
  intros name b. simpl.
  destruct (decide (active_branch s = name)) as [<- | Hne].
  - rewrite lookup_insert_eq. intros [= <-]. unfold linked. simpl.
    rewrite Hb in E. apply linked_from_snoc; [by apply (Hl _ _ E) |].
    simpl. unfold terminal_id. by destruct (last (states br)).
  - rewrite lookup_insert_ne by done. rewrite Hb. apply Hl.
Qed.

Lemma Preserves_linked_fork n f now now' :
  Preserves all_linked (fork n f now now').
Proof.
  intros s Hl. unfold create_branch.
  unfold bind at 1. unfold get at 1. unfold bind at 1.
  destruct (load_registry (active_branch s) f s) as [Hlb _].
  destruct (load (active_branch s) f s) as [[df | e] s1]; simpl in Hlb;
    [| by apply (all_linked_same s)].
  unfold bind at 1, _get_config_at_state, bind at 1, branch_at at 1.
  destruct (branches s1 !! active_branch s) as [src |];
    [| by apply (all_linked_same s)].
  unfold ret at 1. unfold bind at 1, modify at 1. unfold bind at 1, modify at 1.
  apply Preserves_linked_commit. intros name b. simpl.
  destruct (decide (n = name)) as [<- | Hne].
  - rewrite lookup_insert_eq. by intros [= <-].
  - rewrite lookup_insert_ne by done. rewrite Hlb. apply Hl.
Qed.

Lemma switch_branches b (s : SM) :
  branches (snd (switch b s)) = branches s.
Proof.
  unfold switch_branch, bind, get, modify, raise.
  destruct (branches s !! b) as [br |]; [| done].
  destruct (terminal_id br) as [t |]; [| done].
  by destruct (load_registry b t (set_active_branch b s)) as [H _].
Qed.

Lemma Preserves_linked_delete b :
  Preserves all_linked (delete_branch b : Meth unit).
Proof.
  intros s Hl. unfold delete_branch, bind, get, modify, raise.
  destruct (String.eqb_spec b "main"); [done |].
  destruct (String.eqb_spec b (active_branch s)); [done |].
  set (keys := keys_where _ (_memory_cache s)).
  destruct (drop_keys_fields keys s) as (_ & Hb & _ & _).
  proj. rewrite Hb. destruct (branches s !! b); simpl.
  - intros name br. simpl. intros H. apply lookup_delete_Some in H as [_ H].
    by apply (Hl name).
  - apply (all_linked_same s); [| done]. by simpl.
Qed.

Lemma linked_step o (s : SM) : all_linked s -> all_linked (step' s o).
Proof.
  intros Hl. destruct o; simpl.
  - by apply Preserves_linked_commit.
  - apply (all_linked_same s); [apply load_registry | done].
  - apply (all_linked_same s); [apply current_registry | done].
  - by apply Preserves_linked_fork.
  - apply (all_linked_same s); [apply switch_branches | done].
  - by apply Preserves_linked_delete.
  - apply (all_linked_same s); [apply compare_registry | done].
  - apply (all_linked_same s); [apply export_registry | done].
  - by apply (all_linked_same s).
  - intros name b. simpl. intros H.
    apply lookup_singleton_Some in H as [_ <-]. done.
Qed.

(** X2. In every store reached from [__init__] by public operations, the
    records of every branch are chained by [parent]: the first record of a
    branch has no parent and every other one names the id of the record
    before it. *)
Theorem reachable_histories_linked
    (n : Z) (pre : option (gmap string Parquet)) (now : string)
    (ops : list (op DataFrame Config)) (name : string) (b : Branch Config) :
  branches (run' (init n pre now) ops) !! name = Some b ->
  linked b = true.
Proof.
  assert (H : all_linked (run' (init n pre now) ops)); [| apply H].
  assert (H0 : all_linked (init n pre now)).
  { intros k br. simpl. intros H.
    apply lookup_singleton_Some in H as [_ <-]. done. }
  revert H0. generalize (init n pre now : SM). unfold run.
  induction ops as [| o ops IH]; intros s Hs; simpl; [done |].
  apply IH. by apply linked_step.
Qed.

(** X12. A commit that returns shows in the getters: the current state id is
    the committed id, the summary of the active branch counts one more
    state and reports the shape of the committed frame, and the history
    is the old one followed by the new record. *)
Theorem commit_shows_in_getters
    (s s' : SM) (i : string) (df : DataFrame) (c : Config) (d now : string) :
  commit i df c d now s = (Return tt, s') ->
  exists br, branches s !! active_branch s = Some br /\
    get_current_state_id s' = (Return (Some i), s') /\
    get_branch_summary (active_branch s) s' =
      (Return (Summary (S (length (states br))) i (len_rows df)
                       (len_columns df) now), s') /\
    get_state_history None s' =
      (Return (states br ++ [commit_record br i df c d now])%list, s').
Proof.
  intros Hc. destruct (commit_returns _ _ _ _ _ _ _ Hc) as (Ha & _ & br & Hb & Hbs).
  exists br. split; [done |].
  unfold get_current_state_id, get_branch_summary, get_state_history,
    bind, get, branch_at, ret, terminal_id.
  rewrite Ha, Hbs, lookup_insert_eq. simpl.
  rewrite last_snoc. simpl. rewrite length_app. simpl.
  by rewrite Nat.add_1_r.
Qed.

(** X18. Comparing a state with itself: when [compare_branches] returns for
    the same branch on both sides, both sides of the report have the same
    shape, no column is on one side only, and the common columns are the
    columns of the state. *)
Theorem compare_state_with_itself
    (s s' : SM) (b i : string) (r : CompareReport) :
  report b b i s = (Return r, s') ->
  report_a r = report_b r /\
  columns_only_in_a r = ∅ /\ columns_only_in_b r = ∅ /\
  exists df, fst (load b i s) = Return df /\
    common_columns r = list_to_set (columns df).
Proof.
  unfold compare_report, compare_branches, bind, ret.
  destruct (load b i s) as [[df | e] s1] eqn:Hl; [| done].
  destruct (load_returns _ _ _ _ _ Hl) as (_ & _ & Hc).
  rewrite (load_cached _ _ _ _ Hc). intros [= <- _]. simpl.
  split; [done |]. split; [apply difference_diag_L |].
  split; [apply difference_diag_L |].
  exists df. split; [done | apply (idemp_L (∩))].
Qed.


(** The registry after [commit_state]: as it was, or with the active
    branch rebound. *)
Lemma commit_touches_registry i df c d now (s : SM) :
  let s' := snd (commit i df c d now s) in
  active_branch s' = active_branch s /\
  (branches s' = branches s \/
   exists b, branches s' = <[active_branch s := b]> (branches s)).
Proof.
  cbv zeta. unfold commit_state, bind, get, branch_at, modify.
  destruct (add_to_cache_registry (state_key (active_branch s) i) df s)
    as [Hb Ha].
  destruct (add_to_cache (state_key (active_branch s) i) df s)
    as [[[] | e] s1]; simpl in *; [| by split; [| left]].
  destruct (branches s1 !! active_branch s) as [br |]; simpl;
    [| by split; [| left]].
  split; [done |]. right. eexists. by rewrite Hb.
Qed.

(** ** Forking onto a free key *)

(** What [_add_to_cache] and [load_state] can add to the cache: their own
    key. *)
Lemma add_to_cache_keys key df (s : SM) k :
  is_Some (_memory_cache (snd (add_to_cache key df s)) !! k) ->
  k = key \/ is_Some (_memory_cache s !! k).
Proof.
  unfold _add_to_cache, bind, _touch, modify.
  destruct (_memory_cache s !! key) eqn:Hk; simpl; [by right |].
  destruct (evict_loop_frame (_access_order s) s) as (_ & _ & Hnone).
  assert (Hold : forall s1 : SM,
    (forall j, _memory_cache s !! j = None -> _memory_cache s1 !! j = None) ->
    is_Some (_memory_cache s1 !! k) -> is_Some (_memory_cache s !! k)).
  { intros s1 H1 Hs. destruct (_memory_cache s !! k) eqn:E; [by eauto |].
    rewrite (H1 k E) in Hs. by destruct Hs. }
  destruct (evict_loop to_parquet (_access_order s) s) as [[[] | e] s1];
    simpl in *.
  - destruct (decide (key = k)) as [-> | Hne]; [by left |].
    rewrite lookup_insert_ne by done. right. by apply (Hold s1).
  - right. by apply (Hold s1).
Qed.

Lemma load_keys b i (s : SM) k :
  is_Some (_memory_cache (snd (load b i s)) !! k) ->
  k = state_key b i \/ is_Some (_memory_cache s !! k).
Proof.
  unfold load_state, bind, ret, _touch, modify.
  destruct (_memory_cache s !! state_key b i) eqn:Hk; simpl; [by right |].
  destruct (temp_dir s ≫= _) as [bytes |]; [| by right].
  destruct (read_parquet bytes) as [df |]; [| by right].
  pose proof (add_to_cache_keys (state_key b i) df s k) as H.
  by destruct (add_to_cache (state_key b i) df s) as [[[] | e] s1].
Qed.

(** The steps of a [create_branch] that returns. *)
Lemma fork_returns new_name i now now' (s s2 : SM) :
  fork new_name i now now' s = (Return tt, s2) ->
  exists df s1,
    load (active_branch s) i s = (Return df, s1) /\
    exists cfg,
      commit i df cfg ("Forked from " +:+ active_branch s +:+ "::" +:+ i) now'
        (set_active_branch new_name
           (set_branches
              (<[new_name := mkBranch now (Some (active_branch s, i)) []]>
                 (branches s1)) s1)) = (Return tt, s2).
Proof.
  unfold create_branch.
  unfold bind at 1. unfold get at 1. unfold bind at 1.
  destruct (load (active_branch s) i s) as [[df | e] s1]; [| done].
  unfold bind at 1, _get_config_at_state, bind at 1, branch_at at 1.
  destruct (branches s1 !! active_branch s) as [src |]; [| done].
  unfold ret at 1. unfold bind at 1, modify at 1. unfold bind at 1, modify at 1.
  intros Hc. exists df, s1. split; [done |]. eauto.
Qed.

(** X14. The fork round trip.  If the key of the new branch and the fork point
    is not in the cache when [create_branch] is called, and the call
    returns, then the current state of the new branch is the frame that
    [load_state] returned for the fork point on the source branch, and
    the record of the fork point carries its digest. *)
Theorem fork_round_trip_on_free_key
    (s s2 : SM) (new_name i now now' : string) :
  _memory_cache s !! state_key new_name i = None ->
  fork new_name i now now' s = (Return tt, s2) ->
  exists df,
    fst (load (active_branch s) i s) = Return df /\
    fst (current s2) = Return (Some df) /\
    (data_hash <$> (branches s2 !! new_name ≫= fun b => last (states b)))
      = Some (_compute_hash df).
Proof.
  intros Hfree Hf. destruct (fork_returns _ _ _ _ _ _ Hf) as (df & s1 & Hl & _).
  exists df. rewrite Hl. split; [done |].
  assert (Hstale : forall other,
    _memory_cache s1 !! state_key new_name i = Some other -> other = df).
  { intros other Ho.
    destruct (load_keys (active_branch s) i s (state_key new_name i))
      as [E | [x Hx]].
    - rewrite Hl. simpl. eauto.
    - destruct (load_returns _ _ _ _ _ Hl) as (_ & _ & Hc).
      rewrite <- E in Hc. congruence.
    - congruence. }
  destruct (fork_round_trip _ _ _ _ _ _ _ _ Hl Hstale Hf)
    as (_ & (cfg & summary & Hb) & Hcur).
  split; [done |]. by rewrite Hb.
Qed.

(** ** The application's rollback *)

Local Abbreviation app_names := (@app_names DataFrame Config Parquet).
Local Abbreviation keys_registered :=
  (@keys_registered DataFrame Config Parquet).
Local Abbreviation app_store := (@app_store DataFrame Config Parquet).

Lemma pretty_N_go_colon_free x s :
  colon_free s = true -> colon_free (pretty_N_go x s) = true.
Proof.
  revert s. induction (N.lt_wf_0 x) as [x _ IH]; intros s Hs.
  assert (x = 0 \/ 0 < x)%N as [-> | Hx] by lia.
  - by rewrite pretty_N_go_0.
  - rewrite pretty_N_go_step by done. apply IH; [by apply N.div_lt |].
    simpl. rewrite Hs. unfold pretty_N_char. by repeat case_match.
Qed.

Lemma pretty_nat_colon_free (n : nat) : colon_free (pretty n) = true.
Proof.
  unfold pretty, pretty_nat, pretty, pretty_N.
  case_decide; [done |]. by apply pretty_N_go_colon_free.
Qed.

(** Two keys whose branch names have no colon agree on the branch. *)
Lemma state_key_branch_inj (a b x y : string) :
  colon_free a = true -> colon_free b = true ->
  state_key a x = state_key b y -> a = b.
Proof.
  unfold state_key. revert b.
  induction a as [| c a IH]; intros [| c' b] Ha Hb; simpl in *.
  - done.
  - intros [= <- _]. done.
  - intros [= -> _]. done.
  - intros [= <- H]. f_equal.
    apply andb_true_iff in Ha as [_ Ha]. apply andb_true_iff in Hb as [_ Hb].
    by apply IH.
Qed.

Lemma app_name_colon_free (s : SM) name :
  app_names s -> is_Some (branches s !! name) -> colon_free name = true.
Proof.
  intros Hn H. apply Hn in H as [-> | (k & _ & ->)]; [done |].
  simpl. apply pretty_nat_colon_free.
Qed.

(** The name the rollback picks is not in the registry. *)
Lemma app_next_name_unused (s : SM) :
  app_names s ->
  branches s !! ("branch_" +:+ pretty (size (branches s))) = None.
Proof.
  intros Hn.
  destruct (branches s !! ("branch_" +:+ pretty (size (branches s))))
    eqn:E; [| done].
  assert (is_Some (branches s !! ("branch_" +:+ pretty (size (branches s)))))
    as [[=] | (k & Hk & Heq)]%Hn by eauto.
  apply (append_inj_r "branch_") in Heq. apply (inj pretty) in Heq. lia.
Qed.

Lemma app_names_nonempty (s : SM) : app_names s -> 1 <= size (branches s).
Proof.
  intros Hn. assert (is_Some (branches s !! "main")) as [b Hb].
  { apply Hn. by left. }
  destruct (size (branches s)) eqn:E; [| lia].
  apply map_size_empty_inv in E. rewrite E, lookup_empty in Hb. done.
Qed.

(** Registering the next name keeps the registry one of the
    application's. *)
Lemma app_names_insert_next (s s' : SM) b :
  app_names s ->
  branches s' = <["branch_" +:+ pretty (size (branches s)) := b]> (branches s) ->
  app_names s'.
Proof.
  intros Hn Hb name. pose proof (app_next_name_unused s Hn) as Hfresh.
  pose proof (app_names_nonempty s Hn) as Hpos.
  rewrite Hb, map_size_insert_None by done.
  destruct (decide ("branch_" +:+ pretty (size (branches s)) = name))
    as [<- | Hne].
  - rewrite lookup_insert_eq. split; [| by eauto].
    intros _. right. exists (size (branches s)). split; [lia | done].
  - rewrite lookup_insert_ne by done. rewrite (Hn name). split.
    + intros [-> | (k & Hk & ->)]; [by left |].
      right. exists k. split; [lia | done].
    + intros [-> | (k & Hk & ->)]; [by left |].
      right. exists k. split; [| done].
      assert (k <> size (branches s)) by (intros ->; done). lia.
Qed.

Lemma app_names_same (s s' : SM) :
  (forall name, is_Some (branches s' !! name) <-> is_Some (branches s !! name)) ->
  size (branches s') = size (branches s) ->
  app_names s -> app_names s'.
Proof. intros Hd Hs Hn name. rewrite Hd, Hs. apply Hn. Qed.

(** [commit_state] registers no name and drops none. *)
Lemma commit_names i df c d now (s : SM) :
  let s' := snd (commit i df c d now s) in
  (forall name, is_Some (branches s' !! name) <-> is_Some (branches s !! name))
  /\ size (branches s') = size (branches s).
Proof.
  cbv zeta. unfold commit_state, bind, get, branch_at, modify.
  destruct (add_to_cache_registry (state_key (active_branch s) i) df s)
    as [Hb Ha].
  destruct (add_to_cache (state_key (active_branch s) i) df s)
    as [[[] | e] s1]; simpl in *; [| by rewrite Hb].
  destruct (branches s1 !! active_branch s) as [br |] eqn:E; simpl;
    [| by rewrite Hb].
  split.
  - intros name. destruct (decide (active_branch s = name)) as [<- | Hne].
    + rewrite lookup_insert_eq, <- Hb, E. split; eauto.
    + by rewrite lookup_insert_ne, Hb.
  - rewrite map_size_insert_Some by eauto. by rewrite Hb.
Qed.

Lemma commit_keys i df c d now (s : SM) k :
  is_Some (_memory_cache (snd (commit i df c d now s)) !! k) ->
  k = state_key (active_branch s) i \/ is_Some (_memory_cache s !! k).
Proof.
  unfold commit_state, bind, get, branch_at, modify.
  pose proof (add_to_cache_keys (state_key (active_branch s) i) df s k) as H.
  destruct (add_to_cache (state_key (active_branch s) i) df s)
    as [[[] | e] s1]; simpl in *; [| done].
  by destruct (branches s1 !! active_branch s).
Qed.

(** What [create_branch] leaves behind, returning or raising: the
    registry as it was, or with the new name registered and active; the
    cache has gained at most the keys of the fork point on the source
    branch and on the new one. *)
Lemma fork_shape n f now now' (s : SM) :
  let s' := snd (fork n f now now' s) in
  (branches s' = branches s /\ active_branch s' = active_branch s /\
   forall k, is_Some (_memory_cache s' !! k) ->
     k = state_key (active_branch s) f \/ is_Some (_memory_cache s !! k))
  \/
  (exists b, branches s' = <[n := b]> (branches s) /\ active_branch s' = n /\
   forall k, is_Some (_memory_cache s' !! k) ->
     k = state_key (active_branch s) f \/ k = state_key n f \/
     is_Some (_memory_cache s !! k)).
Proof.
  cbv zeta. remember (fork n f now now' s) as r eqn:Hr.
  unfold create_branch in Hr.
  unfold bind at 1 in Hr. unfold get at 1 in Hr. unfold bind at 1 in Hr.
  destruct (load_registry (active_branch s) f s) as [Hlb Hla].
  pose proof (load_keys (active_branch s) f s) as Hlk.
  destruct (load (active_branch s) f s) as [[df | e] s1];
    simpl in Hlb, Hla, Hlk; cycle 1.
  { subst r. simpl. left. by repeat split. }
  unfold bind at 1, _get_config_at_state, bind at 1, branch_at at 1 in Hr.
  destruct (branches s1 !! active_branch s) as [src |]; cycle 1.
  { subst r. simpl. left. by repeat split. }
  unfold ret at 1 in Hr. unfold bind at 1, modify at 1 in Hr.
  unfold bind at 1, modify at 1 in Hr.
  set (cfg := find_config empty_config f (states src)) in Hr.
  set (s1' := set_active_branch n _) in Hr.
  set (m := "Forked from " +:+ _) in Hr.
  destruct (commit_touches_registry f df cfg m now' s1') as (Ha & Hb).
  pose proof (commit_keys f df cfg m now' s1') as Hk.
  rewrite <- Hr in Ha, Hb, Hk. subst s1'. simpl in Ha, Hb, Hk.
  assert (Hkeys : forall k, is_Some (_memory_cache r.2 !! k) ->
    k = state_key (active_branch s) f \/ k = state_key n f \/
    is_Some (_memory_cache s !! k)).
  { intros k Hs. destruct (Hk k Hs) as [-> | Hold]; [auto |].
    destruct (Hlk k Hold); auto. }
  right. destruct Hb as [Hb | [b Hb]].
  - eexists. split; [| done]. by rewrite Hb, Hlb.
  - eexists. split; [| done]. by rewrite Hb, insert_insert_eq, Hlb.
Qed.

Lemma current_keys (s : SM) k :
  is_Some (_memory_cache (snd (current s)) !! k) ->
  (exists t, k = state_key (active_branch s) t) \/
  is_Some (_memory_cache s !! k).
Proof.
  unfold get_current_state, bind, get, branch_at, ret.
  destruct (branches s !! active_branch s) as [br |]; [| by right].
  destruct (terminal_id br) as [t |]; [| by right].
  pose proof (load_keys (active_branch s) t s k) as H.
  destruct (load (active_branch s) t s) as [[df | e] s1]; simpl in *;
    intros Hk; destruct (H Hk); eauto.
Qed.

Lemma keys_registered_grow (s s' : SM) :
  keys_registered s ->
  (forall name, is_Some (branches s !! name) -> is_Some (branches s' !! name)) ->
  (forall k, is_Some (_memory_cache s' !! k) ->
     (exists b i, k = state_key b i /\ is_Some (branches s' !! b)) \/
     is_Some (_memory_cache s !! k)) ->
  keys_registered s'.
Proof.
  intros Hk Hsub Hnew k Hs. destruct (Hnew k Hs) as [? | Hold]; [done |].
  destruct (Hk k Hold) as (b & i & -> & Hb). eauto.
Qed.

Lemma app_store_init n pre now : app_store (init n pre now).
Proof.
  split; [apply consistent_init |]. split.
  - intros name. simpl. rewrite map_size_singleton. split.
    + intros [b Hb]. apply lookup_singleton_Some in Hb as [<- _]. by left.
    + intros [-> | (k & Hk & _)]; [| lia]. rewrite lookup_singleton_eq. eauto.
  - intros k. simpl. rewrite lookup_empty. by intros [? ?].
Qed.

Lemma app_store_fork f now now' (s : SM) :
  app_store s ->
  app_store
    (snd (fork ("branch_" +:+ pretty (size (branches s))) f now now' s)).
Proof.
  intros (Hc & Hn & Hk).
  pose proof (Preserves_consistent_fork
                ("branch_" +:+ pretty (size (branches s))) f now now' s Hc)
    as Hc'.
  destruct (fork_shape ("branch_" +:+ pretty (size (branches s))) f now now' s)
    as [(Hb & Ha & Hkeys) | (b & Hb & Ha & Hkeys)];
    (split; [done |]).
  - split; [apply (app_names_same s); by rewrite ?Hb |].
    apply (keys_registered_grow s); [done | by rewrite Hb |].
    intros k Hs. destruct (Hkeys k Hs) as [-> | Hold]; [| by right].
    left. eexists _, _. split; [done |]. rewrite Hb. apply Hc.
  - split; [by apply (app_names_insert_next s _ b) |].
    assert (Hsub : forall name,
      is_Some (branches s !! name) ->
      is_Some (branches (snd (fork ("branch_" +:+ pretty (size (branches s)))
                                   f now now' s)) !! name)).
    { intros name Hname. rewrite Hb.
      destruct (decide ("branch_" +:+ pretty (size (branches s)) = name))
        as [<- | Hne]; [rewrite lookup_insert_eq; eauto |].
      by rewrite lookup_insert_ne. }
    apply (keys_registered_grow s); [done | done |].
    intros k Hs. destruct (Hkeys k Hs) as [-> | [-> | Hold]]; [| | by right].
    + left. eexists _, _. split; [done |]. apply Hsub, Hc.
    + left. eexists _, _. split; [done |]. rewrite Hb, lookup_insert_eq. eauto.
Qed.

Lemma app_store_step o (s : SM) : app_store s -> app_store (app_step' s o).
Proof.
  intros (Hc & Hn & Hk). destruct o; simpl.
  - split; [by apply Preserves_consistent_commit |].
    destruct (commit_names state_id df config summary now s) as [Hd Hs].
    split; [by apply (app_names_same s) |].
    apply (keys_registered_grow s); [done | by intros name; rewrite Hd |].
    intros k Hin. destruct (commit_keys _ _ _ _ _ _ _ Hin) as [-> | ?];
      [| by right].
    left. eexists _, _. split; [done |]. apply Hd, Hc.
  - split; [by apply Preserves_consistent_current |].
    destruct (current_registry s) as [Hb Ha].
    split; [apply (app_names_same s); by rewrite ?Hb |].
    apply (keys_registered_grow s); [done | by rewrite Hb |].
    intros k Hin. destruct (current_keys _ _ Hin) as [[t ->] | ?];
      [| by right].
    left. eexists _, _. split; [done |]. rewrite Hb. apply Hc.
  - assert (E : snd (get_current_state_id s) = s).
    { unfold get_current_state_id, bind, get, branch_at, ret.
      by destruct (branches s !! active_branch s). }
    by rewrite E.
  - assert (E : snd (get_state_history None s) = s).
    { unfold get_state_history, bind, get, branch_at, ret.
      by destruct (branches s !! active_branch s). }
    by rewrite E.
  - split; [by apply Preserves_consistent_load |].
    destruct (load_registry (active_branch s) state_id s) as [Hb Ha].
    split; [apply (app_names_same s); by rewrite ?Hb |].
    apply (keys_registered_grow s); [done | by rewrite Hb |].
    intros k Hin. destruct (load_keys _ _ _ _ Hin) as [-> | ?]; [| by right].
    left. eexists _, _. split; [done |]. rewrite Hb. apply Hc.
  - unfold rollback. destruct rollback_target as [t |]; [| done].
    destruct (String.eqb t ""); [done |].
    unfold bind, get. by apply app_store_fork.
Qed.

Lemma app_store_run ops : forall s : SM,
  app_store s -> app_store (app_run' s ops).
Proof.
  unfold app_run. induction ops as [| o ops IH]; intros s Hs; simpl; [done |].
  apply IH. by apply app_store_step.
Qed.

(** X19. The branch name of a rollback is always new.  In every store the
    application reaches from [__init__] by committing, reading the current
    state and its id, listing the history, loading states of the active
    branch and rolling back, the name [branch_<number of branches>] is not in the
    registry, so a rollback never replaces an existing branch. *)
Theorem rollback_name_is_unused
    (n : Z) (pre : option (gmap string Parquet)) (now : string)
    (ops : list (app_op DataFrame Config)) :
  let s := app_run' (init n pre now) ops in
  branches s !! ("branch_" +:+ pretty (size (branches s))) = None.
Proof.
  cbv zeta. apply app_next_name_unused.
  apply (app_store_run ops (init n pre now) (app_store_init n pre now)).
Qed.

(** X20. The rollback restores the chosen state.  In every store the
    application reaches, a rollback to a non-empty target that returns
    leaves the new branch active, with the target as its only record, and
    the current state is then the frame that [load_state] returned for
    the target on the branch that was active. *)
Theorem rollback_restores_target
    (n : Z) (pre : option (gmap string Parquet)) (now : string)
    (ops : list (app_op DataFrame Config))
    (target now1 now2 : string) (s2 : SM) :
  let s := app_run' (init n pre now) ops in
  target <> "" ->
  rollback' (Some target) now1 now2 s = (Return tt, s2) ->
  exists df,
    fst (load (active_branch s) target s) = Return df /\
    fst (current s2) = Return (Some df) /\
    active_branch s2 = "branch_" +:+ pretty (size (branches s)) /\
    (id <$> (default [] (states <$> branches s2 !! active_branch s2)))
      = [target].
Proof.
  cbv zeta. intros Ht.
  pose proof (app_store_run ops (init n pre now) (app_store_init n pre now))
    as (Hc & Hn & Hk).
  set (s := app_run' (init n pre now) ops) in *.
  unfold rollback. destruct (String.eqb_spec target ""); [done |].
  unfold bind at 1, get at 1. intros Hf.
  destruct (fork_returns _ _ _ _ _ _ Hf) as (df & s1 & Hl & _).
  exists df. rewrite Hl. split; [done |].
  pose proof (app_next_name_unused s Hn) as Hfresh.
  assert (Hstale : forall other,
    _memory_cache s1 !! state_key ("branch_" +:+ pretty (size (branches s)))
                                  target = Some other -> other = df).
  { intros other Ho. exfalso.
    assert (Hreg : exists b i,
      state_key ("branch_" +:+ pretty (size (branches s))) target
        = state_key b i /\ is_Some (branches s !! b)).
    { destruct (load_keys (active_branch s) target s
                  (state_key ("branch_" +:+ pretty (size (branches s))) target))
        as [E | Hold].
      - rewrite Hl. simpl. eauto.
      - eexists _, _. split; [exact E | apply Hc].
      - by apply Hk. }
    destruct Hreg as (b & i & E & Hb).
    apply state_key_branch_inj in E.
    - subst b. rewrite Hfresh in Hb. by destruct Hb.
    - simpl. apply pretty_nat_colon_free.
    - by apply (app_name_colon_free s). }
  destruct (fork_round_trip _ _ _ _ _ _ _ _ Hl Hstale Hf)
    as (Ha & (cfg & summary & Hb) & Hcur).
  split; [done |]. split; [done |]. by rewrite Ha, Hb.
Qed.

(** ** Spilled states stay available *)

Local Abbreviation available := (@available DataFrame Config Parquet).
Local Abbreviation served := (@served DataFrame Config Parquet).

Section Encodable.

(** Every frame can be written as Parquet. *)
Hypothesis encodable : forall d, is_Some (to_parquet d).

Lemma evict_loop_served key order : forall s : SM,
  served key s -> served key (snd (evict_loop to_parquet order s)).
Proof.
  induction order as [| k rest IH]; intros s Hs; simpl.
  - by destruct (_ <=? _)%Z.
  - destruct (_ <=? _)%Z; [| done].
    destruct (_memory_cache s !! k) as [d |] eqn:Hk; [| done].
    destruct (encodable d) as [bytes ->].
    destruct Hs as [[files Hf] Hav]. rewrite Hf. apply IH.
    split; [by simpl; eauto |]. unfold available in *. simpl. rewrite Hf in Hav.
    simpl in Hav.
    destruct (decide (disk_path k = disk_path key)) as [E | Hne].
    + right. rewrite E, lookup_insert_eq. eauto.
    + destruct Hav as [Hc | Hd].
      * destruct (decide (k = key)) as [-> | Hkk]; [done |].
        left. by rewrite lookup_delete_ne.
      * right. by rewrite lookup_insert_ne.
Qed.

Lemma served_same_data key (s s' : SM) :
  temp_dir s' = temp_dir s ->
  (forall k, is_Some (_memory_cache s !! k) -> is_Some (_memory_cache s' !! k)) ->
  served key s -> served key s'.
Proof.
  intros Hd Hc [Hdir [H | H]]; (split; [by rewrite Hd |]).
  - left. by apply Hc.
  - right. by rewrite Hd.
Qed.

Lemma Preserves_served_add key k df :
  Preserves (served key) (add_to_cache k df).
Proof.
  intros s Hs. unfold _add_to_cache, bind, _touch, modify.
  destruct (_memory_cache s !! k); [by apply (served_same_data key s) |].
  pose proof (evict_loop_served key (_access_order s) s Hs) as H.
  destruct (evict_loop to_parquet (_access_order s) s) as [[[] | e] s1];
    simpl in *; [| done].
  apply (served_same_data key s1); [done | | done]. simpl. intros j [x Hx].
  destruct (decide (k = j)) as [-> | Hne]; [rewrite lookup_insert_eq; eauto |].
  rewrite lookup_insert_ne by done. eauto.
Qed.

Lemma Preserves_served_load key b i : Preserves (served key) (load b i).
Proof.
  intros s Hs. unfold load_state, bind, ret, _touch, modify.
  destruct (_memory_cache s !! state_key b i);
    [by apply (served_same_data key s) |].
  destruct (temp_dir s ≫= _) as [bytes |]; [| done].
  destruct (read_parquet bytes) as [df |]; [| done].
  pose proof (Preserves_served_add key (state_key b i) df s Hs) as H.
  by destruct (add_to_cache (state_key b i) df s) as [[[] | e] s1].
Qed.

Lemma Preserves_served_commit key i df c d now :
  Preserves (served key) (commit i df c d now).
Proof.
  intros s Hs. unfold commit_state, bind, get, branch_at, modify.
  pose proof (Preserves_served_add key (state_key (active_branch s) i) df s Hs)
    as H.
  destruct (add_to_cache (state_key (active_branch s) i) df s)
    as [[[] | e] s1]; simpl in *; [| done].
  destruct (branches s1 !! active_branch s); [| done].
  by apply (served_same_data key s1).
Qed.

Lemma Preserves_served_current key : Preserves (served key) current.
Proof.
  unfold get_current_state.
  apply Preserves_bind; [apply Preserves_get | intros s0].
  apply Preserves_bind; [apply Preserves_branch_at | intros br].
  destruct (terminal_id br); [| apply Preserves_ret].
  apply Preserves_bind; [apply Preserves_served_load | intros df].
  apply Preserves_ret.
Qed.

Lemma Preserves_served_fork key n f now now' :
  Preserves (served key) (fork n f now now').
Proof.
  intros s Hs. unfold create_branch.
  unfold bind at 1. unfold get at 1. unfold bind at 1.
  pose proof (Preserves_served_load key (active_branch s) f s Hs) as Hl.
  destruct (load (active_branch s) f s) as [[df | e] s1]; simpl in Hl;
    [| done].
  unfold bind at 1, _get_config_at_state, bind at 1, branch_at at 1.
  destruct (branches s1 !! active_branch s) as [src |]; [| done].
  unfold ret at 1. unfold bind at 1, modify at 1. unfold bind at 1, modify at 1.
  apply Preserves_served_commit. by apply (served_same_data key s1).
Qed.

Lemma Preserves_served_switch key b : Preserves (served key) (switch b).
Proof.
  intros s Hs. unfold switch_branch, bind, get, modify, raise.
  destruct (branches s !! b) as [br |]; [| done].
  destruct (terminal_id br) as [t |]; [| by apply (served_same_data key s)].
  apply Preserves_served_load. by apply (served_same_data key s).
Qed.

Lemma Preserves_served_compare key a b i :
  Preserves (served key) (compare a b i).
Proof.
  unfold compare_branches.
  apply Preserves_bind; [apply Preserves_served_load | intros ?].
  apply Preserves_bind; [apply Preserves_served_load | intros ?].
  apply Preserves_ret.
Qed.

Lemma Preserves_served_export key : Preserves (served key) export.
Proof.
  intros s Hs. unfold export_pipeline, bind, get, branch_at, ret, export_raw.
  pose proof (Preserves_served_load key "main" "df_raw" s Hs) as H.
  destruct (load "main" "df_raw" s) as [[df | e] s1]; simpl in H.
  - destruct (to_parquet df); [| done].
    by destruct (branches s1 !! active_branch s1).
  - destruct e; try done. by destruct (branches s1 !! active_branch s1).
Qed.


End Encodable.

End Properties.

(** * The methods evaluated on concrete stores *)

Import Demo.

(** The three-commit scenario at its concrete values. *)
Lemma capacity_two_scenario_witness :
  let s3 := run Some Some digest rows columns no_config
              (init 2 None "t0")
              [OpCommit "s1" df1 no_config "" "t"; OpCommit "s2" df2 no_config "" "t";
               OpCommit "s3" df3 no_config "" "t"] in
  "s1" <> "s2" /\ "s1" <> "s3" /\ "s2" <> "s3" /\
  _memory_cache s3 !! "main::s1" = None /\
  temp_dir s3 ≫= (.!! "main__s1.parquet") = Some df1 /\
  fst (load "main" "s1" s3) = Return df1 /\
  dom (_memory_cache (snd (load "main" "s1" s3))) = {["main::s1"; "main::s3"]}.
Proof.
  assert (N12 : "s1" <> "s2") by discriminate.
  assert (N13 : "s1" <> "s3") by discriminate.
  assert (N23 : "s2" <> "s3") by discriminate.
  pose proof (capacity_two_scenario Some Some digest rows columns no_config
                None "t0" "s1" "s2" "s3" df1 df2 df3 no_config no_config no_config "" "" ""
                "t" "t" "t" df1 df2 N12 N13 N23 eq_refl eq_refl eq_refl)
    as (H1 & H2 & H3 & H4 & _).
  repeat split; assumption.
Defined.

(** The bound on a run that fills, spills, reloads, forks, purges and
    resets a store of capacity 2. *)
Lemma cache_never_exceeds_capacity_witness :
  let s := run Some Some digest rows columns no_config
             (init 2 None "t0")
             [OpCommit "s1" df1 no_config "" "t"; OpCommit "s2" df2 no_config "" "t";
              OpCommit "s3" df3 no_config "" "t"; OpLoad "main" "s1";
              OpFork "b" "s1" "t" "t"; OpSwitch "main"; OpDelete "b";
              OpPurge; OpCommit "s4" df1 no_config "" "t"; OpReset "t"] in
  (1 <= 2)%Z /\
  (Z.of_nat (size (_memory_cache s)) <= 2)%Z /\ cache_size s = 2%Z.
Proof.
  split; [lia |].
  apply (cache_never_exceeds_capacity Some Some digest rows columns no_config).
  lia.
Defined.

(** Forking from an id that was never committed, on a new store. *)
Lemma fork_from_missing_state_fails_witness :
  _memory_cache (new 5) !! state_key "main" "nowhere" = None /\
  temp_dir (new 5) ≫= (.!! disk_path (state_key "main" "nowhere")) = None /\
  fork "b" "nowhere" (new 5) =
    (Raise (StateNotFoundError "State main::nowhere not found"), new 5).
Proof.
  split; [reflexivity |]. split; [reflexivity |].
  apply (fork_from_missing_state_fails Some Some digest rows columns no_config
           (new 5) "b" "nowhere" "t" "t"); reflexivity.
Defined.

(** C8 fails as stated: on a new store [load_state("main", "df_raw")]
    raises [StateNotFoundError], yet [export_pipeline] returns normally,
    and of the three files it has written only the branch metadata. *)
Lemma export_swallows_missing_origin :
  load "main" "df_raw" (new 5) =
    (Raise (StateNotFoundError "State main::df_raw not found"), new 5) /\
  export (new 5) =
    (Return {| df_raw_parquet := None;
               state_store_json := Some (branches (new 5), "main");
               pipeline_config_json := None |}, new 5).
Proof. split; vm_compute; reflexivity. Qed.

(** The export of a new store, through the general statement. *)
Lemma export_pipeline_outcome_witness :
  export (new 5) =
    (Return {| df_raw_parquet := None;
               state_store_json := Some (branches (new 5), "main");
               pipeline_config_json := None |}, new 5).
Proof.
  destruct (export_pipeline_outcome Some Some (new 5)) as (_ & _ & _ & H).
  apply (H (mkBranch "t0" None [])); reflexivity.
Defined.

(** C4: the code keeps the old frame.  On a new store of capacity 5,
    committing [df1] and then [df2] under the same id returns both times,
    but the cache entry of that key still holds [df1] and a load returns
    [df1], while the record just appended carries the digest of [df2]. *)
Lemma recommit_keeps_old_frame :
  let s1 := after (commit "df_clean" df1 []) (new 5) in
  let s2 := after (commit "df_clean" df2 []) s1 in
  fst (commit "df_clean" df2 [] s1) = Return tt /\
  _memory_cache s2 !! state_key "main" "df_clean" = Some df1 /\
  fst (load "main" "df_clean" s2) = Return df1 /\
  df1 <> df2 /\
  data_hash <$> (branches s2 !! "main" ≫= fun b => last (states b))
    = Some (digest df2) /\
  digest df2 <> digest df1.
Proof. vm_compute. repeat split; discriminate. Qed.

(** C5: the code looks at the first occurrence.  After two commits under
    the id [df_clean], with frames [df1], [df2] and configurations [cfgA],
    [cfgB], the history has two records with that id, the last one with
    [cfgB] and the digest of [df2]; yet a load returns [df1], the lookup
    used by the fork returns [cfgA], and the branch forked from that id
    starts with a record of [cfgA] and the digest of [df1].  In a store of
    capacity 1 where the first frame was written out before the second
    commit, the load returns [df2] while the lookup still returns
    [cfgA]. *)
Lemma duplicate_id_reads_first_occurrence :
  let cfgA : config := [("strategy", "mean")] in
  let cfgB : config := [("strategy", "median")] in
  let s2 := after (commit "df_clean" df2 cfgB)
              (after (commit "df_clean" df1 cfgA) (new 5)) in
  let forked := after (fork "b" "df_clean") s2 in
  let t3 := after (commit "df_clean" df2 cfgB)
              (after (commit "df_schema" df3 [])
                 (after (commit "df_clean" df1 cfgA) (new 1))) in
  (id <$> (default [] (states <$> branches s2 !! "main")))
    = ["df_clean"; "df_clean"] /\
  (fun r => (config_snapshot r, data_hash r))
    <$> (branches s2 !! "main" ≫= fun b => last (states b))
    = Some (cfgB, digest df2) /\
  fst (load "main" "df_clean" s2) = Return df1 /\
  fst (_get_config_at_state no_config "main" "df_clean" s2) = Return cfgA /\
  fst (fork "b" "df_clean" s2) = Return tt /\
  (fun r => (id r, config_snapshot r, data_hash r))
    <$> (default [] (states <$> branches forked !! "b"))
    = [("df_clean", cfgA, digest df1)] /\
  fst (load "main" "df_clean" t3) = Return df2 /\
  fst (_get_config_at_state no_config "main" "df_clean" t3) = Return cfgA /\
  df1 <> df2 /\ cfgA <> cfgB.
Proof. vm_compute. repeat split; discriminate. Qed.

(** C6: on a new store the branch [main] is registered and has no record;
    [switch_branch("main")] raises [IndexError], where
    [get_current_state] returns [None]. *)
Lemma switch_to_empty_branch_raises :
  branches (new 5) !! "main" = Some (mkBranch "t0" None []) /\
  switch "main" (new 5) = (Raise IndexError, new 5) /\
  current (new 5) = (Return None, new 5).
Proof. vm_compute. repeat split. Qed.

(** C7: deleting [a] takes the data of another branch with it.  In
    [three_branches] the terminal frame of [a__b] is on disk and
    [switch_branch("a__b")] returns it; [delete_branch("a")] returns, [a__b]
    is still registered with its two records, but its files are gone and
    [switch_branch("a__b")] raises [StateNotFoundError].  In [nested_names]
    the cached frame of [a::b] is dropped by [delete_branch("a")] in the
    same way. *)
Lemma delete_branch_takes_other_branch_data :
  let s := three_branches in
  let s' := after (delete "a") s in
  let n := nested_names in
  let n' := after (delete "a") n in
  active_branch s = "main" /\
  temp_dir s ≫= (.!! disk_path (state_key "a__b" "t")) = Some df2 /\
  fst (switch "a__b" s) = Return df2 /\
  fst (delete "a" s) = Return tt /\
  (id <$> (default [] (states <$> branches s' !! "a__b"))) = ["s"; "t"] /\
  temp_dir s' ≫= (.!! disk_path (state_key "a__b" "t")) = None /\
  temp_dir s' ≫= (.!! disk_path (state_key "a__b" "s")) = None /\
  fst (switch "a__b" s') =
    Raise (StateNotFoundError "State a__b::t not found") /\
  _memory_cache n !! state_key "a::b" "s" = Some df1 /\
  fst (delete "a" n) = Return tt /\
  (id <$> (default [] (states <$> branches n' !! "a::b"))) = ["s"] /\
  _memory_cache n' !! state_key "a::b" "s" = None /\
  fst (switch "a::b" n') =
    Raise (StateNotFoundError "State a::b::s not found").
Proof. vm_compute. repeat split. Qed.

(** C9: a fork whose current state is not the frame forked from.  In
    [colliding_keys] no branch is called [b] and [load_state("main", "x::s")]
    returns [df2]; [create_branch("b", "x::s")] returns and the history of
    [b] is the one record [x::s] with the digest of [df2], but the current
    state of [b] is [df1], whose digest differs.  In [reused_name] forking
    [b] again from [t] gives a branch whose current state is [df2], not the
    [df3] that [load_state("main", "t")] returns. *)
Lemma fork_current_state_differs :
  let s := colliding_keys in
  let s' := after (fork "b" "x::s") s in
  let r := reused_name in
  let r' := after (fork "b" "t") r in
  active_branch s = "main" /\
  branches s !! "b" = None /\
  fst (load "main" "x::s" s) = Return df2 /\
  fst (fork "b" "x::s" s) = Return tt /\
  active_branch s' = "b" /\
  (fun r => (id r, data_hash r))
    <$> (default [] (states <$> branches s' !! "b"))
    = [("x::s", digest df2)] /\
  fst (current s') = Return (Some df1) /\
  digest df1 <> digest df2 /\
  fst (load "main" "t" r) = Return df3 /\
  fst (fork "b" "t" r) = Return tt /\
  fst (current r') = Return (Some df2) /\
  digest df2 <> digest df3.
Proof. vm_compute. repeat split; discriminate. Qed.

(** * Erasing the session *)

(** X21. The erase button never purges the state manager.  Whatever the session
    holds, [clear_all_session_data] makes no call to [cleanup]: the key
    [state_manager] starts with [state_], so the first loop has deleted it
    before the test that guards the call.  Its only effect outside the
    session is to recreate the temporary directory when it exists; in the
    session it deletes every key starting with [df_], [pipeline_] or
    [state_] and the keys [current_phase], [uploaded_file] and [config],
    and keeps every other key. *)
Theorem clear_all_session_data_skips_cleanup {V}
    (session : gmap string V) (temp_exists : bool) :
  let r := clear_all_session_data session temp_exists in
  (ManagerCleanup ∉ snd r) /\
  snd r = (if temp_exists then [TempDirRecreated] else []) /\
  forall k,
    fst r !! k =
      if startswith k "df_" || startswith k "pipeline_"
         || startswith k "state_" || String.eqb k "current_phase"
         || String.eqb k "uploaded_file" || String.eqb k "config"
      then None else session !! k.
Proof.
  cbv zeta. unfold clear_all_session_data.
  set (test := fun k : string =>
         startswith k "df_" || startswith k "pipeline_"
         || startswith k "state_").
  set (session1 := foldl _ session _).
  assert (H1 : forall k, session1 !! k = if test k then None else session !! k).
  { intros k. apply (delete_keys_where_lookup test). }
  assert (Hsm : session1 !! "state_manager" = None).
  { rewrite H1. reflexivity. }
  rewrite Hsm. cbn [foldl fst snd app]. split; [| split].
  - destruct temp_exists; [| by intros ?%elem_of_nil].
    by intros [=]%list_elem_of_singleton.
  - done.
  - intros k.
    rewrite !lookup_delete, H1. fold (test k).
    destruct (String.eqb_spec k "current_phase") as [-> | N1];
      [by rewrite !orb_true_r |].
    destruct (String.eqb_spec k "uploaded_file") as [-> | N2];
      [by rewrite !orb_true_r |].
    destruct (String.eqb_spec k "config") as [-> | N3];
      [by rewrite !orb_true_r |].
    rewrite !orb_false_r. by repeat case_decide.
Qed.

(** * The further properties at concrete stores *)

(** A commit to a new store of capacity 2 returns. *)
Lemma commit_on_consistent_store_witness :
  (1 <= cache_size (new 2))%Z /\
  fst (commit "s1" df1 no_config (new 2)) = Return tt.
Proof.
  split; [vm_compute; discriminate |].
  destruct (commit_on_consistent_store Some digest rows columns (new 2)
              "s1" df1 no_config "" "t"
              (consistent_init 2 None "t0")) as [_ H].
  - vm_compute. discriminate.
  - apply H; [by eexists | intros k f _; by eexists].
Defined.

(** A commit to a store of capacity 0 raises. *)
Lemma commit_without_capacity_raises_witness :
  (cache_size (new 0) <= 0)%Z /\
  (exists e, fst (commit "s1" df1 no_config (new 0)) = Raise e) /\
  branches (snd (commit "s1" df1 no_config (new 0))) = branches (new 0).
Proof.
  split; [vm_compute; discriminate |].
  destruct (commit_without_capacity_raises Some digest rows columns (new 0)
              "s1" df1 no_config "" "t") as (H1 & H2 & _).
  - vm_compute. discriminate.
  - reflexivity.
  - split; [exact H1 | exact H2].
Defined.

(** A store of capacity 1 that was purged and then holds one frame loses
    that frame on the next commit. *)
Lemma eviction_without_directory_loses_frame_witness :
  let s := after (commit "a" df1 no_config) (after cleanup (new 1)) in
  temp_dir s = None /\
  _memory_cache s !! "main::a" = Some df1 /\
  fst (commit "b" df2 no_config s) =
    Raise (FileNotFoundError "main__a.parquet") /\
  _memory_cache (snd (commit "b" df2 no_config s)) !! "main::a" = None.
Proof.
  cbv zeta. split; [reflexivity |]. split; [reflexivity |].
  destruct (eviction_without_directory_loses_frame Some digest rows columns
              (after (commit "a" df1 no_config) (after cleanup (new 1)))
              "b" df2 no_config "" "t" "main::a" [] df1 df1)
    as (H1 & H2 & _).
  - reflexivity.
  - vm_compute. discriminate.
  - reflexivity.
  - reflexivity.
  - reflexivity.
  - reflexivity.
  - split; [exact H1 | exact H2].
Defined.

(** A full store of capacity 1 evicts its one frame for the next one. *)
Lemma full_cache_evicts_least_recent_witness :
  let s := after (commit "a" df1 no_config) (new 1) in
  _memory_cache s !! "main::a" = Some df1 /\
  fst (commit "b" df2 no_config s) = Return tt /\
  _memory_cache (snd (commit "b" df2 no_config s))
    = <["main::b" := df2]> (base.delete "main::a" (_memory_cache s)) /\
  temp_dir (snd (commit "b" df2 no_config s))
    = Some (<["main__a.parquet" := df1]> ∅).
Proof.
  cbv zeta. split; [reflexivity |].
  destruct (full_cache_evicts_least_recent Some digest rows columns
              (after (commit "a" df1 no_config) (new 1))
              "b" df2 no_config "" "t" "main::a" [] df1 df1 ∅
              (mkBranch "t0" None
                 [mkStateRecord "a" None "t" (digest df1) 5 1 no_config ""]))
    as (H1 & H2 & H3 & _); try reflexivity.
  split; [exact H1 |]. split; [exact H2 | exact H3].
Defined.

(** Loading the older of two cached states makes it the most recent. *)
Lemma loaded_state_is_most_recent_witness :
  let s := public (new 5)
             [OpCommit "a" df1 no_config "" "t";
              OpCommit "b" df2 no_config "" "t"] in
  _access_order s = ["main::a"; "main::b"] /\
  last (_access_order (snd (load "main" "a" s))) = Some "main::a".
Proof.
  cbv zeta. split; [reflexivity |].
  refine (proj1 (loaded_state_is_most_recent Some Some _ _ "main" "a" df1
                   (run_consistent Some Some digest rows columns no_config
                      5 None "t0"
                      [OpCommit "a" df1 no_config "" "t";
                       OpCommit "b" df2 no_config "" "t"]) _)).
  reflexivity.
Defined.

(** The first of three states committed to a store of capacity 2 comes
    back from its file. *)
Lemma load_from_disk_returns_witness :
  let s := public (new 2)
             [OpCommit "s1" df1 no_config "" "t";
              OpCommit "s2" df2 no_config "" "t";
              OpCommit "s3" df3 no_config "" "t"] in
  _memory_cache s !! state_key "main" "s1" = None /\
  fst (load "main" "s1" s) = Return df1.
Proof.
  cbv zeta. split; [reflexivity |].
  refine (proj1 (load_from_disk_returns Some Some _ "main" "s1"
                   (<["main__s1.parquet" := df1]> ∅) df1 df1
                   (run_consistent Some Some digest rows columns no_config
                      2 None "t0"
                      [OpCommit "s1" df1 no_config "" "t";
                       OpCommit "s2" df2 no_config "" "t";
                       OpCommit "s3" df3 no_config "" "t"]) _ _ _ _ _ _)).
  - vm_compute. discriminate.
  - reflexivity.
  - reflexivity.
  - reflexivity.
  - reflexivity.
  - intros k f _. by eexists.
Defined.

(** A fork of a committed state starts a branch of one record. *)
Lemma fork_starts_new_history_witness :
  let s := after (commit "s" df1 no_config) (new 5) in
  fork "b" "s" s = (Return tt, after (fork "b" "s") s) /\
  active_branch (after (fork "b" "s") s) = "b".
Proof.
  cbv zeta. split; [reflexivity |].
  refine (proj1 (fork_starts_new_history Some Some digest rows columns
                   no_config
                   (after (commit "s" df1 no_config) (new 5))
                   (after (fork "b" "s")
                      (after (commit "s" df1 no_config) (new 5)))
                   "b" "s" "t" "t" _)).
  reflexivity.
Defined.

(** The two records of [main] after two commits are chained. *)
Lemma reachable_histories_linked_witness :
  let ops := [OpCommit "a" df1 no_config "" "t";
              OpCommit "b" df2 no_config "" "t"] in
  exists b, branches (public (new 5) ops) !! "main" = Some b /\
            (parent <$> states b) = [None; Some "a"] /\
            linked b = true.
Proof.
  cbv zeta. eexists. split; [reflexivity |]. split; [reflexivity |].
  apply (reachable_histories_linked Some Some digest rows columns no_config
           5 None "t0"
           [OpCommit "a" df1 no_config "" "t";
            OpCommit "b" df2 no_config "" "t"] "main").
  reflexivity.
Defined.

(** The getters after the first commit. *)
Lemma commit_shows_in_getters_witness :
  let s' := after (commit "s" df1 no_config) (new 5) in
  commit "s" df1 no_config (new 5) = (Return tt, s') /\
  get_current_state_id s' = (Return (Some "s"), s') /\
  get_branch_summary "main" s' = (Return (Summary 1 "s" 5 1 "t"), s').
Proof.
  cbv zeta. split; [reflexivity |].
  destruct (commit_shows_in_getters Some digest rows columns (new 5)
              (after (commit "s" df1 no_config) (new 5))
              "s" df1 no_config "" "t" eq_refl) as (br & Hb & H1 & H2 & _).
  injection Hb as <-. split; [exact H1 | exact H2].
Defined.

(** A committed state compared with itself. *)
Lemma compare_state_with_itself_witness :
  let s := after (commit "s" df1 no_config) (new 5) in
  exists r s',
    compare "main" "main" "s" s = (Return r, s') /\
    columns_only_in_a r = ∅ /\ columns_only_in_b r = ∅.
Proof.
  cbv zeta. eexists _, _. split; [reflexivity |].
  destruct (compare_state_with_itself Some Some rows column_names
              (after (commit "s" df1 no_config) (new 5)) _ "main" "s" _
              eq_refl) as (_ & H1 & H2 & _).
  split; [exact H1 | exact H2].
Defined.



(** Switching to the branch [a__b] of the store with three branches. *)
Lemma switch_known_branch_witness :
  exists br,
    branches three_branches !! "a__b" = Some br /\
    terminal_id br = Some "t" /\
    switch "a__b" three_branches =
      load "a__b" "t" (set_active_branch "a__b" three_branches).
Proof.
  eexists. split; [vm_compute; reflexivity |].
  split; [vm_compute; reflexivity |].
  refine (proj1 (switch_known_branch Some Some "a__b" _ "t" three_branches
                   _ _)); vm_compute; reflexivity.
Defined.

(** Forking a committed state onto a branch name never used. *)
Lemma fork_round_trip_on_free_key_witness :
  let s := after (commit "s" df1 no_config) (new 5) in
  _memory_cache s !! state_key "b" "s" = None /\
  fork "b" "s" s = (Return tt, after (fork "b" "s") s) /\
  exists df, fst (load "main" "s" s) = Return df /\
             fst (current (after (fork "b" "s") s)) = Return (Some df).
Proof.
  cbv zeta. split; [reflexivity |]. split; [reflexivity |].
  destruct (fork_round_trip_on_free_key Some Some digest rows columns no_config
              (after (commit "s" df1 no_config) (new 5))
              (after (fork "b" "s") (after (commit "s" df1 no_config) (new 5)))
              "b" "s" "t" "t" eq_refl eq_refl) as (df & H1 & H2 & _).
  exists df. split; [exact H1 | exact H2].
Defined.

(** Rolling back to the raw data after two phases of the application. *)
Lemma rollback_restores_target_witness :
  let s := app (new 5)
             [AppCommit "df_raw" df1 no_config "" "t";
              AppCommit "df_schema" df2 no_config "" "t"] in
  "df_raw" <> "" /\
  undo (Some "df_raw") s = (Return tt, after (undo (Some "df_raw")) s) /\
  exists df,
    fst (load "main" "df_raw" s) = Return df /\
    fst (current (after (undo (Some "df_raw")) s)) = Return (Some df) /\
    active_branch (after (undo (Some "df_raw")) s) = "branch_1".
Proof.
  cbv zeta.
  assert (Hundo :
    undo (Some "df_raw")
      (app (new 5)
         [AppCommit "df_raw" df1 no_config "" "t";
          AppCommit "df_schema" df2 no_config "" "t"])
    = (Return tt,
       after (undo (Some "df_raw"))
         (app (new 5)
            [AppCommit "df_raw" df1 no_config "" "t";
             AppCommit "df_schema" df2 no_config "" "t"])))
    by (vm_compute; reflexivity).
  split; [discriminate |]. split; [exact Hundo |].
  destruct (rollback_restores_target Some Some digest rows columns no_config
              5 None "t0"
              [AppCommit "df_raw" df1 no_config "" "t";
               AppCommit "df_schema" df2 no_config "" "t"]
              "df_raw" "t" "t"
              (after (undo (Some "df_raw"))
                 (app (new 5)
                    [AppCommit "df_raw" df1 no_config "" "t";
                     AppCommit "df_schema" df2 no_config "" "t"])))
    as (df & H1 & H2 & H3 & _); [discriminate | exact Hundo |].
  exists df. split; [exact H1 |]. split; [exact H2 | exact H3].
Defined.

